(** * docx_ingest: DOCX deed ingestion and JSON payload emission

    A shallow embedding of [src/docx_ingest.py].  Python [str] values are
    sequences of Unicode code points; files hold bytes; the payload is an
    insertion-ordered [dict]; exceptions travel in an error monad over the
    process world (file system and standard output).

    The module calls three libraries.  [docx.Document] is a parameter of
    the development: a function from the file system and a path to a
    document or an exception.  The [str] methods, [json.dumps] and
    [Path.write_text] follow CPython 3.11 ([Objects/unicodeobject.c],
    [Lib/json/encoder.py], [Lib/pathlib.py]).  [json.loads], which the
    round-trip property of the specification needs, follows
    [Lib/json/decoder.py] on objects with string values.  [main] starts
    from the [Namespace] that [parse_args()] returns. *)

From Stdlib Require Import NArith List Strings.String Strings.Ascii Strings.Byte Lia Bool.
From stdpp Require Import base option list gmap strings.

Local Open Scope N_scope.

(** ** Python values *)

(** A Python [str]: the list of its code points. *)
Abbreviation str := (list N).

(** Python [bytes], the content of a file. *)
Abbreviation bytes := (list byte).

Definition byte_of_N (n : N) : byte :=
  match Byte.of_N n with Some b => b | None => x00 end.

(** UTF-8 encoding of one code point, as the [utf-8] codec with
    [errors='strict'] does it: surrogates and values past U+10FFFF are
    refused. *)
Definition utf8_encode_char (c : N) : option bytes :=
  if c <? 0x80 then Some [byte_of_N c]
  else if c <? 0x800 then
    Some [byte_of_N (0xC0 + c / 0x40); byte_of_N (0x80 + c mod 0x40)]
  else if c <? 0x10000 then
    if (0xD800 <=? c) && (c <=? 0xDFFF) then None
    else Some [byte_of_N (0xE0 + c / 0x1000);
               byte_of_N (0x80 + (c / 0x40) mod 0x40);
               byte_of_N (0x80 + c mod 0x40)]
  else if c <? 0x110000 then
    Some [byte_of_N (0xF0 + c / 0x40000);
          byte_of_N (0x80 + (c / 0x1000) mod 0x40);
          byte_of_N (0x80 + (c / 0x40) mod 0x40);
          byte_of_N (0x80 + c mod 0x40)]
  else None.

(** [s.encode("utf-8")]: [None] stands for [UnicodeEncodeError]. *)
Fixpoint utf8_encode (s : str) : option bytes :=
  match s with
  | [] => Some []
  | c :: s' =>
      match utf8_encode_char c, utf8_encode s' with
      | Some b, Some bs => Some (b ++ bs)
      | _, _ => None
      end
  end.

Definition is_cont (b : byte) : bool :=
  let n := Byte.to_N b in (0x80 <=? n) && (n <? 0xC0).

Definition cont_bits (b : byte) : N := Byte.to_N b - 0x80.

(** UTF-8 decoding of a source literal: the interpreter reads the module
    file as UTF-8, so a literal denotes the decoded code points.  Shortest
    forms only; [None] on a malformed sequence. *)
Fixpoint utf8_decode (bs : bytes) : option str :=
  match bs with
  | [] => Some []
  | b0 :: r0 =>
      let n := Byte.to_N b0 in
      if n <? 0x80 then cons n <$> utf8_decode r0
      else if n <? 0xC2 then None
      else match r0 with
      | [] => None
      | b1 :: r1 =>
        if negb (is_cont b1) then None
        else if n <? 0xE0 then
          cons ((n - 0xC0) * 0x40 + cont_bits b1) <$> utf8_decode r1
        else match r1 with
        | [] => None
        | b2 :: r2 =>
          if negb (is_cont b2) then None
          else if n <? 0xF0 then
            let c := (n - 0xE0) * 0x1000 + cont_bits b1 * 0x40 + cont_bits b2 in
            if (c <? 0x800) || ((0xD800 <=? c) && (c <=? 0xDFFF)) then None
            else cons c <$> utf8_decode r2
          else match r2 with
          | [] => None
          | b3 :: r3 =>
            if negb (is_cont b3) then None
            else
              let c := (n - 0xF0) * 0x40000 + cont_bits b1 * 0x1000
                       + cont_bits b2 * 0x40 + cont_bits b3 in
              if (c <? 0x10000) || (0x110000 <=? c) then None
              else cons c <$> utf8_decode r3
          end
        end
      end
  end.

(** A literal of the source, as the [str] it denotes. *)
Definition lit (s : string) : str :=
  default [] (utf8_decode (list_byte_of_string s)).

(** ** The compiled-in prompt (lines 13 to 163 of the module) *)

Definition SYSTEM_PROMPT_literal : string :=
"SYSTEM PROMPT — AUDITOR PH INMOBILIARIO (DECIMALES CONTROLADOS + VALIDACIÓN)

You are a real-estate technical audit engine specialized in Argentine Property Horizontal deeds and Special Horizontal Developments.

The user works on Windows with regional settings:

• Human decimal separator: ,
• Thousands separator: .
• List separator: ;

⚠️ ALL technical outputs MUST be normalized to international numeric format:

Decimal separator → .
NO thousands separators EVER.

🎯 CORE MISSION

Receive deed text segments and extract ONLY the units belonging to the building or complex explicitly mentioned.

NEVER mix different buildings even if they appear in the same text.

📦 DATA FIELDS PER UNIT
building_name

Exact building or complex name

unit — strict normalization

Planta Baja letra A → PB A
Primer piso letra C → 1 C
Segundo piso letra D → 2 D
Tercer piso letra B → 3 B
Subsuelo cochera N → COCHERA N
Baulera número N → BAULERA N
Special PH lots → Z-468 etc exactly as deed

type (only one)

Vivienda | Cochera | Baulera | Local | Mixto

📐 SURFACE RULES (MANDATORY)
propia_total =

✔ own covered surface
✔ + ALL exclusive-use surfaces (balcony, patio, terrace, semicubierta exclusiva)

comunes_total =

✔ common covered
✔ + common semicubierta
✔ + common uncovered

❌ NEVER place exclusive-use surfaces into comunes

If no common surfaces exist:

comunes_total = 0

total_con_comunes
propia_total + comunes_total

📊 OUTPUT FORMAT (ALWAYS)
1️⃣ Human-readable audit table
2️⃣ Clean technical CSV (SQL-ready)

Exact header:

building_name,unit,type,propia_total,comunes_total,total_con_comunes


Rules:

• decimal = .
• no thousands separators
• full precision preserved

🔍 MANDATORY CALCULATION TRACE

Whenever surfaces exist, ALWAYS show:

propia_total = own covered + exclusive use
comunes_total = covered + semicubierta + uncovered
total_con_comunes = sum


With exact deed precision (up to 4 decimals or more if present)

🚨 AUTOMATIC VALIDATIONS

After extraction, ALWAYS perform:

✅ Consistency checks:

• If deed provides “TOTAL POR UNIDAD” → verify against calculated propia_total
• If mismatch > 0.0001 → trigger alert

⚠️ Alert format:
⚠️ ALERTA DE ESCRITURA:

Unidad: X  
Total declarado: Y  
Total calculado: Z  
Diferencia: Δ  

Posible error en escritura o superficie mal sumada.

🔎 Structural integrity checks:

• Negative surfaces → ERROR
• comunes_total includes exclusive surfaces → ERROR
• Missing mandatory fields → ERROR
• Duplicate unit IDs → WARNING

🚫 ABSOLUTE PROHIBITIONS

❌ Do not invent units
❌ Do not merge buildings
❌ Do not round
❌ Do not reinterpret surfaces
❌ Do not output comma decimals
❌ Do not skip calculation traces
❌ Do not summarize

🧾 ENGINE PERSONALITY

Behave as:

✔ forensic real estate auditor
✔ cadastral technical expert
✔ SQL-ready data processor

Accuracy > speed > verbosity.

Every number must be traceable.

If inconsistencies exist, report them clearly — never silently correct.

📌 DEFAULT MODE

Always operate in:

AUDIT MODE = ON
VALIDATION MODE = ON
ERROR DETECTION MODE = ON

Si querés, siguiente nivel (opcional pero brutalmente útil):

🔁 agregar export automático a MySQL UPDATE
📈 control por porcentajes de dominio
🧮 detección de escrituras históricamente mal confeccionadas
".

Definition SYSTEM_PROMPT : str :=
  Eval vm_compute in lit SYSTEM_PROMPT_literal.

(** ** [str] methods used by the module *)

(** [Py_UNICODE_ISSPACE]: the code points [str.strip()] removes. *)
Definition isspace (c : N) : bool :=
  ((0x09 <=? c) && (c <=? 0x0D)) || ((0x1C <=? c) && (c <=? 0x20))
  || (c =? 0x85) || (c =? 0xA0) || (c =? 0x1680)
  || ((0x2000 <=? c) && (c <=? 0x200A))
  || (c =? 0x2028) || (c =? 0x2029) || (c =? 0x202F) || (c =? 0x205F)
  || (c =? 0x3000).

Fixpoint lstrip (s : str) : str :=
  match s with
  | [] => []
  | c :: s' => if isspace c then lstrip s' else s
  end.

Definition rstrip (s : str) : str := rev (lstrip (rev s)).

(** [s.strip()] with no argument. *)
Definition strip (s : str) : str := rstrip (lstrip s).

(** Truth value of a [str] in a condition: non-empty. *)
Definition truthy (s : str) : bool :=
  match s with [] => false | _ :: _ => true end.

(** [sep.join(items)]. *)
Fixpoint join (sep : str) (items : list str) : str :=
  match items with
  | [] => []
  | [x] => x
  | x :: rest => x ++ sep ++ join sep rest
  end.

Definition NL : N := 0x0A.

(** ** Exceptions and the process world *)

Inductive exn : Type :=
  | PackageNotFoundError
  | BadZipFile
  | UnicodeEncodeError
  | OSError.

Inductive result (A : Type) : Type :=
  | Return (a : A)
  | Raise (e : exn).
Arguments Return {A} a.
Arguments Raise {A} e.

(** [pathlib.Path], kept as the path string. *)
Abbreviation Path := string.

Record World : Type := mkWorld {
  files : gmap string bytes;
  stdout : str
}.

(** Computations of the module: they read and update the world and either
    return or raise. *)
Definition M (A : Type) : Type := World -> result A * World.

Definition ret {A} (a : A) : M A := fun w => (Return a, w).
Definition raise {A} (e : exn) : M A := fun w => (Raise e, w).
Definition bind {A B} (m : M A) (k : A -> M B) : M B :=
  fun w =>
    match m w with
    | (Return a, w') => k a w'
    | (Raise e, w') => (Raise e, w')
    end.

Notation "x <- m ;; k" := (bind m (fun x => k))
  (at level 100, m at next level, right associativity).

(** A computation that only reads the file system. *)
Definition reading {A} (f : gmap string bytes -> result A) : M A :=
  fun w => (f (files w), w).

(** ** The document library, as the module sees it *)

Record Paragraph : Type := mkParagraph { text : str }.

Record DocxDocument : Type := mkDocument { paragraphs : list Paragraph }.

(** The insertion-ordered [dict[str, str]]. *)
Abbreviation dict := (list (str * str)).

Definition str_eqb (a b : str) : bool := bool_decide (a = b).

(** [d[k] = v]: an existing key keeps its place, a new key goes last. *)
Fixpoint dict_setitem (d : dict) (k v : str) : dict :=
  match d with
  | [] => [(k, v)]
  | (k', v') :: d' =>
      if str_eqb k' k then (k', v) :: d' else (k', v') :: dict_setitem d' k v
  end.

Fixpoint dict_get (d : dict) (k : str) : option str :=
  match d with
  | [] => None
  | (k', v') :: d' => if str_eqb k' k then Some v' else dict_get d' k
  end.

Definition dict_keys (d : dict) : list str := map fst d.

(** A dict display [{k1: v1, k2: v2, ...}]: the items are stored left to
    right. *)
Definition dict_display (items : list (str * str)) : dict :=
  fold_left (fun d kv => dict_setitem d (fst kv) (snd kv)) items [].

Section Ingest.

(** [docx.Document(path)]: opens and parses the package at [path]; it
    reads the file system and writes nothing. *)
Variable Document : gmap string bytes -> Path -> result DocxDocument.

(** Lines 166 to 169. *)
Definition read_docx_text (path : Path) : M str :=
  document <- reading (fun fs => Document fs path) ;;
  let paragraphs := map text (paragraphs document) in
  ret (join [NL] (filter (fun line => truthy (strip line)) paragraphs)).

(** Lines 172 to 176. *)
Definition build_payload (docx_path : Path) : M dict :=
  deed_text <- read_docx_text docx_path ;;
  ret (dict_display [ (lit "system_prompt", SYSTEM_PROMPT);
                      (lit "deed_text", deed_text) ]).

End Ingest.

(** ** [json.dumps(payload, ensure_ascii=False, indent=2)] *)

Definition QUOTE : N := 0x22.
Definition BACKSLASH : N := 0x5C.

(** One lower-case hexadecimal digit. *)
Definition hex_digit (n : N) : N :=
  if n <? 10 then 0x30 + n else 0x61 + (n - 10).

(** ['\\u{0:04x}'.format(i)], for [i] below [0x10000]. *)
Definition format_u04x (i : N) : str :=
  [BACKSLASH; 0x75; hex_digit (i / 0x1000 mod 0x10);
   hex_digit (i / 0x100 mod 0x10); hex_digit (i / 0x10 mod 0x10);
   hex_digit (i mod 0x10)].

(** The regular expression [ESCAPE]: control characters, backslash and the
    double quote. *)
Definition ESCAPE (c : N) : bool :=
  (c <=? 0x1F) || (c =? BACKSLASH) || (c =? QUOTE).

(** The table [ESCAPE_DCT]: seven short escapes, then [setdefault] fills the
    rest of [range(0x20)]. *)
Definition ESCAPE_DCT (c : N) : option str :=
  if c =? BACKSLASH then Some [BACKSLASH; BACKSLASH]
  else if c =? QUOTE then Some [BACKSLASH; QUOTE]
  else if c =? 0x08 then Some [BACKSLASH; 0x62]
  else if c =? 0x0C then Some [BACKSLASH; 0x66]
  else if c =? 0x0A then Some [BACKSLASH; 0x6E]
  else if c =? 0x0D then Some [BACKSLASH; 0x72]
  else if c =? 0x09 then Some [BACKSLASH; 0x74]
  else if c <? 0x20 then Some (format_u04x c)
  else None.

(** [ESCAPE.sub(replace, s)] at one character. *)
Definition escape_char (c : N) : str :=
  if ESCAPE c then default [c] (ESCAPE_DCT c) else [c].

(** [py_encode_basestring], the encoder chosen by [ensure_ascii=False]. *)
Definition encode_basestring (s : str) : str :=
  QUOTE :: flat_map escape_char s ++ [QUOTE].

(** [_indent * n]. *)
Definition str_mul (s : str) (n : nat) : str := concat (repeat s n).

Definition key_separator : str := lit ": ".

(** The loop of [_iterencode_dict] over the items, with its [first] flag. *)
Fixpoint iterencode_items (item_separator : str) (first : bool)
    (items : dict) : list str :=
  match items with
  | [] => []
  | (key, value) :: rest =>
      (if first then [] else [item_separator])
      ++ [encode_basestring key; key_separator; encode_basestring value]
      ++ iterencode_items item_separator false rest
  end.

(** [_iterencode_dict(dct, _current_indent_level)] for a string-valued
    dict and an indent that is not [None]: the chunks it yields. *)
Definition iterencode_dict (_indent : str) (dct : dict)
    (_current_indent_level : nat) : list str :=
  match dct with
  | [] => [lit "{}"]
  | _ :: _ =>
      let level := S _current_indent_level in
      let newline_indent := NL :: str_mul _indent level in
      let item_separator := lit "," ++ newline_indent in
      [lit "{"; newline_indent]
      ++ iterencode_items item_separator true dct
      ++ [NL :: str_mul _indent _current_indent_level; lit "}"]
  end.

(** [json.dumps(obj, ensure_ascii=False, indent=indent)]:
    [''.join(chunks)] with [_indent = ' ' * indent]. *)
Definition json_dumps (obj : dict) (indent : nat) : str :=
  concat (iterencode_dict (repeat 0x20 indent) obj 0).

(** ** [json.loads], on the texts a string-valued object serialises to *)

Inductive outcome (A : Type) : Type :=
  | Ok (a : A)
  | JSONDecodeError
  | Unmodelled.
Arguments Ok {A} a.
Arguments JSONDecodeError {A}.
Arguments Unmodelled {A}.

(** A scanner returns the value and the text after it. *)
Definition push (c : N) (r : outcome (str * str)) : outcome (str * str) :=
  match r with
  | Ok (v, rest) => Ok (c :: v, rest)
  | JSONDecodeError => JSONDecodeError
  | Unmodelled => Unmodelled
  end.

(** The table [BACKSLASH] of the decoder. *)
Definition BACKSLASH_tbl (esc : N) : option N :=
  if esc =? QUOTE then Some QUOTE
  else if esc =? BACKSLASH then Some BACKSLASH
  else if esc =? 0x2F then Some 0x2F
  else if esc =? 0x62 then Some 0x08
  else if esc =? 0x66 then Some 0x0C
  else if esc =? 0x6E then Some 0x0A
  else if esc =? 0x72 then Some 0x0D
  else if esc =? 0x74 then Some 0x09
  else None.

Definition hex_value (c : N) : option N :=
  if (0x30 <=? c) && (c <=? 0x39) then Some (c - 0x30)
  else if (0x61 <=? c) && (c <=? 0x66) then Some (c - 0x61 + 10)
  else if (0x41 <=? c) && (c <=? 0x46) then Some (c - 0x41 + 10)
  else None.

(** [int(esc, 16)] on four hexadecimal digits.  On four characters that
    are not all hexadecimal digits the interpreter's answer changes with
    its version: [None]. *)
Definition hex4 (h1 h2 h3 h4 : N) : option N :=
  match hex_value h1, hex_value h2, hex_value h3, hex_value h4 with
  | Some a, Some b, Some c, Some d => Some (((a * 16 + b) * 16 + c) * 16 + d)
  | _, _, _, _ => None
  end.

(** [py_scanstring(s, end, strict=True)], from the character after the
    opening quote. *)
Fixpoint scanstring (s : str) : outcome (str * str) :=
  match s with
  | [] => JSONDecodeError
  | c :: s1 =>
    if c =? QUOTE then Ok ([], s1)
    else if c =? BACKSLASH then
      match s1 with
      | [] => JSONDecodeError
      | esc :: s2 =>
        if negb (esc =? 0x75) then
          match BACKSLASH_tbl esc with
          | Some char => push char (scanstring s2)
          | None => JSONDecodeError
          end
        else
          match s2 with
          | h1 :: h2 :: h3 :: h4 :: s3 =>
            match hex4 h1 h2 h3 h4 with
            | None => Unmodelled
            | Some uni =>
              if negb ((0xD800 <=? uni) && (uni <=? 0xDBFF)) then
                push uni (scanstring s3)
              else
                match s3 with
                | b :: u :: s4 =>
                  if negb ((b =? BACKSLASH) && (u =? 0x75)) then
                    push uni (scanstring s3)
                  else
                    match s4 with
                    | g1 :: g2 :: g3 :: g4 :: s5 =>
                      match hex4 g1 g2 g3 g4 with
                      | None => Unmodelled
                      | Some uni2 =>
                        if (0xDC00 <=? uni2) && (uni2 <=? 0xDFFF) then
                          push (0x10000 + (uni - 0xD800) * 0x400
                                + (uni2 - 0xDC00))
                               (scanstring s5)
                        else push uni (scanstring s3)
                      end
                    | _ => JSONDecodeError
                    end
                | _ => push uni (scanstring s3)
                end
            end
          | _ => JSONDecodeError
          end
      end
    else if c <? 0x20 then JSONDecodeError
    else push c (scanstring s1)
  end.

(** The regular expression [WHITESPACE]. *)
Definition is_ws (c : N) : bool :=
  (c =? 0x20) || (c =? 0x09) || (c =? 0x0A) || (c =? 0x0D).

Fixpoint skip_ws (s : str) : str :=
  match s with
  | c :: s' => if is_ws c then skip_ws s' else s
  | [] => []
  end.

(** [scan_once] where the payload type needs it: a string value.  Any
    other value is outside [dict[str, str]]. *)
Definition scan_once (s : str) : outcome (str * str) :=
  match s with
  | [] => JSONDecodeError
  | c :: s1 => if c =? QUOTE then scanstring s1 else Unmodelled
  end.

(** The [while True] loop of [JSONObject], entered after the opening quote
    of a key.  Each turn consumes text, so more turns than [s] has
    characters are never needed ([JSONObject_loop_fuel]). *)
Fixpoint JSONObject_loop (fuel : nat) (s : str) (pairs : list (str * str))
    : outcome (list (str * str) * str) :=
  match fuel with
  | O => Unmodelled
  | S fuel' =>
    match scanstring s with
    | Ok (key, s1) =>
      let s2 := match s1 with
                | c :: _ => if c =? 0x3A then s1 else skip_ws s1
                | [] => s1
                end in
      match s2 with
      | [] => JSONDecodeError
      | c :: s3 =>
        if negb (c =? 0x3A) then JSONDecodeError
        else
          match scan_once (skip_ws s3) with
          | Ok (value, s4) =>
            let pairs' := pairs ++ [(key, value)] in
            match skip_ws s4 with
            | [] => JSONDecodeError
            | nextchar :: s5 =>
              if nextchar =? 0x7D then Ok (pairs', s5)
              else if negb (nextchar =? 0x2C) then JSONDecodeError
              else
                match skip_ws s5 with
                | q :: s6 =>
                  if q =? QUOTE then JSONObject_loop fuel' s6 pairs'
                  else JSONDecodeError
                | [] => JSONDecodeError
                end
            end
          | JSONDecodeError => JSONDecodeError
          | Unmodelled => Unmodelled
          end
      end
    | JSONDecodeError => JSONDecodeError
    | Unmodelled => Unmodelled
    end
  end.

(** [JSONObject], from the character after the opening brace;
    [dict(pairs)] stores the pairs left to right. *)
Definition JSONObject (s : str) : outcome (dict * str) :=
  let s1 := match s with
            | c :: _ => if c =? QUOTE then s else skip_ws s
            | [] => s
            end in
  match s1 with
  | [] => JSONDecodeError
  | c :: s2 =>
    if c =? QUOTE then
      match JSONObject_loop (S (length s2)) s2 [] with
      | Ok (pairs, rest) => Ok (dict_display pairs, rest)
      | JSONDecodeError => JSONDecodeError
      | Unmodelled => Unmodelled
      end
    else if c =? 0x7D then Ok ([], s2)
    else JSONDecodeError
  end.

(** [json.loads(s)] for a text whose top-level value is an object:
    [JSONDecoder.decode] skips white space on both sides and refuses extra
    data. *)
Definition json_loads (s : str) : outcome dict :=
  match skip_ws s with
  | [] => JSONDecodeError
  | c :: s1 =>
    if c =? 0x7B then
      match JSONObject s1 with
      | Ok (obj, rest) =>
          match skip_ws rest with
          | [] => Ok obj
          | _ :: _ => JSONDecodeError
          end
      | JSONDecodeError => JSONDecodeError
      | Unmodelled => Unmodelled
      end
    else Unmodelled
  end.

(** ** Writing the result (lines 193 to 200) *)

(** What the operating system may do to the one file write of a run. *)
Inductive io_fault : Type :=
  | OpenFails
      (** [open(mode='w')] raises; the destination is not touched. *)
  | WriteFails (n : nat)
      (** The file was opened and truncated, at most [n] bytes reach it,
          and writing, flushing or closing raises. *).

Definition set_file (path : Path) (content : bytes) (w : World) : World :=
  mkWorld (<[path := content]> (files w)) (stdout w).

(** [path.write_text(data, encoding="utf-8")]:
    [with self.open(mode='w', ...) as f: return f.write(data)]. *)
Definition write_text (fault : option io_fault) (path : Path) (data : str)
    : M nat :=
  fun w =>
    match fault with
    | Some OpenFails => (Raise OSError, w)
    | _ =>
        match utf8_encode data with
        | None => (Raise UnicodeEncodeError, set_file path [] w)
        | Some bs =>
            match fault with
            | Some (WriteFails n) => (Raise OSError, set_file path (take n bs) w)
            | _ => (Return (length data), set_file path bs w)
            end
        end
    end.

(** [print(output)]: the text and a newline go to standard output, kept
    here as a text stream. *)
Definition print (output : str) : M unit :=
  fun w => (Return tt, mkWorld (files w) (stdout w ++ output ++ [NL])).

(** The [argparse.Namespace] that [parse_args()] returns. *)
Record Namespace : Type := mkNamespace {
  docx_path : Path;
  output : option Path
}.

(** Exit status of the interpreter: an exception that reaches the top
    level ends the process with status 1. *)
Definition exit_code {A} (r : result A) : N :=
  match r with
  | Return _ => 0
  | Raise _ => 1
  end.

Section Main.

Variable Document : gmap string bytes -> Path -> result DocxDocument.

(** [main()], once [parse_args()] has returned [args].  A [Path] is
    always true in a condition, so [if args.output:] asks whether the
    option was given. *)
Definition main (args : Namespace) (fault : option io_fault) : M unit :=
  payload <- build_payload Document (docx_path args) ;;
  let output_text := json_dumps payload 2 in
  match output args with
  | Some destination =>
      _ <- write_text fault destination output_text ;; ret tt
  | None => print output_text
  end.

End Main.

(** A stand-in for the document library that answers from canned
    paragraph lists: a missing file is not found, a file without a canned
    answer is not a package. *)
Definition fake_Document (canned : gmap string (list str))
    : gmap string bytes -> Path -> result DocxDocument :=
  fun fs path =>
    match fs !! path with
    | None => Raise PackageNotFoundError
    | Some _ =>
        match canned !! path with
        | Some ps => Return (mkDocument (map mkParagraph ps))
        | None => Raise BadZipFile
        end
    end.

(** ** [parse_args] (lines 179 to 190) *)

(** How [ArgumentParser._parse_optional] reads one argument of this
    parser: a positional, [-h]/[--help], [-o]/[--output], or another
    argument that starts with a dash (an abbreviation, [--], [-o=x],
    [-ox], a negative number, an unknown option). *)
Inductive arg_kind : Type :=
  | ArgPositional
  | ArgHelp
  | ArgOutput
  | ArgOtherDash.

Definition classify_arg (arg : string) : arg_kind :=
  match arg with
  | EmptyString => ArgPositional
  | String c _ =>
      if negb (Ascii.eqb c "-") then ArgPositional
      else if String.eqb arg "-h" || String.eqb arg "--help" then ArgHelp
      else if String.eqb arg "-o" || String.eqb arg "--output" then ArgOutput
      else ArgOtherDash
  end.

(** What [parser.parse_args()] does with [sys.argv[1:]]. *)
Inductive parse_result : Type :=
  | Parsed (args : Namespace)
      (** The namespace is returned; [type=Path] keeps the string. *)
  | HelpExit
      (** [-h]: the help text goes to standard output, exit status 0. *)
  | UsageError
      (** [parser.error]: usage on standard error, exit status 2. *)
  | UnmodelledArgs
      (** Some argument is of the kind [ArgOtherDash]. *).

(** [_parse_known_args] on arguments of the first three kinds, then the
    checks for the required positional and for unrecognized arguments:
    positionals and options are consumed from left to right, the first
    positional is [docx_path], later ones are extras, and [-o] takes the
    next argument, which must be a positional. *)
Fixpoint parse_known_args (arg_strings : list string)
    (docx : option Path) (out : option Path) (extras : list string)
    : parse_result :=
  match arg_strings with
  | [] =>
      match docx, extras with
      | Some path, [] => Parsed (mkNamespace path out)
      | _, _ => UsageError
      end
  | arg :: rest =>
      match classify_arg arg with
      | ArgPositional =>
          match docx with
          | None => parse_known_args rest (Some arg) out extras
          | Some _ => parse_known_args rest docx out (extras ++ [arg])
          end
      | ArgHelp => HelpExit
      | ArgOutput =>
          match rest with
          | value :: rest' =>
              match classify_arg value with
              | ArgPositional => parse_known_args rest' docx (Some value) extras
              | _ => UsageError
              end
          | [] => UsageError
          end
      | ArgOtherDash => UnmodelledArgs
      end
  end.

Definition is_other_dash (arg : string) : bool :=
  match classify_arg arg with
  | ArgOtherDash => true
  | _ => false
  end.

(** [parse_args()], given [sys.argv[1:]].  All arguments are classified
    before any is acted on.  [type=Path] keeps the argument as the name of
    the file: two spellings of one file are two names here. *)
Definition parse_args (argv : list string) : parse_result :=
  if existsb is_other_dash argv then UnmodelledArgs
  else parse_known_args argv None None [].


(** A positional argument of the command line: empty, or not starting
    with a dash. *)
Definition plain_arg (arg : string) : Prop := classify_arg arg = ArgPositional.

#[global] Instance plain_arg_dec (arg : string) : Decision (plain_arg arg).
Proof. unfold plain_arg. solve_decision. Defined.

(** A Unicode scalar value: a code point that UTF-8 can encode. *)
Definition scalar_value (c : N) : Prop :=
  c < 0xD800 \/ (0xDFFF < c /\ c < 0x110000).

#[global] Instance scalar_value_dec (c : N) : Decision (scalar_value c).
Proof. unfold scalar_value. solve_decision. Defined.

(** ** Vocabulary of the statements *)

(** The text of the specification, [p1 + "\n" + p2 + ... + "\n" + pn],
    summed from the left. *)
Definition spec_concat (ps : list str) : str :=
  match ps with
  | [] => []
  | p1 :: rest => fold_left (fun acc p => acc ++ [NL] ++ p) rest p1
  end.

(** A paragraph with at least one character that is not white space. *)
Definition nonblank (p : str) : Prop :=
  Exists (fun c => isspace c = false) p.

(** An empty or white-space-only paragraph. *)
Definition blank (p : str) : Prop :=
  Forall (fun c => isspace c = true) p.

#[global] Instance nonblank_dec (p : str) : Decision (nonblank p) :=
  Exists_dec _ p.

Definition has_nonspace (p : str) : bool :=
  existsb (fun c => negb (isspace c)) p.

(** The payload with the given field values. *)
Definition payload_of (system_prompt deed_text : str) : dict :=
  dict_display [ (lit "system_prompt", system_prompt);
                 (lit "deed_text", deed_text) ].

(** A character past ASCII. *)
Definition non_ascii (c : N) : Prop := 0x80 <= c.

#[global] Instance non_ascii_dec (c : N) : Decision (non_ascii c) :=
  N.le_dec 0x80 c.

(** [s.split(sep)] for a one-character separator. *)
Fixpoint split_on (sep : N) (s : str) : list str :=
  match s with
  | [] => [[]]
  | c :: s' =>
      match split_on sep s' with
      | [] => [[]]
      | piece :: pieces =>
          if c =? sep then [] :: piece :: pieces else (c :: piece) :: pieces
      end
  end.

(** Occurrences of a character. *)
Definition count_char (c : N) (s : str) : nat :=
  length (filter (fun x => x = c) s).

(** The text of the items of a pretty-printed object from the character
    after the opening quote of the first key, up to and including the
    closing brace, followed by [tl]. *)
Fixpoint items_text (items : dict) (tl : str) : str :=
  match items with
  | [] => tl
  | (key, value) :: rest =>
      flat_map escape_char key ++ [QUOTE] ++ lit ": "
      ++ encode_basestring value
      ++ match rest with
         | [] => NL :: lit "}" ++ tl
         | _ :: _ => lit "," ++ NL :: lit "  " ++ QUOTE :: items_text rest tl
         end
  end.

(** ** Example runs *)

Definition example_paragraphs : list str :=
  [ lit "Building ALPHA"; lit ""; lit "Unit PB A — 45.5 m²"; lit "   " ].

Definition example_canned : gmap string (list str) :=
  {[ "deed.docx"%string := example_paragraphs ]}.

Definition example_world : World :=
  mkWorld {[ "deed.docx"%string := [] ]} [].

Definition nonblank_paragraphs : list str :=
  [ lit "Building ALPHA"; lit "  x  "; lit "Unit PB A — 45.5 m²" ].

Definition nonblank_canned : gmap string (list str) :=
  {[ "deed.docx"%string := nonblank_paragraphs ]}.

Definition blank_paragraphs : list str :=
  [ lit ""; lit "   "; [0xA0; 0x09; 0x3000] ].

Definition blank_canned : gmap string (list str) :=
  {[ "deed.docx"%string := blank_paragraphs ]}.

Definition canned_document (ps : list str) : DocxDocument :=
  mkDocument (map mkParagraph ps).

Definition example_args : Namespace :=
  mkNamespace "deed.docx" (Some "result.json"%string).

(** A world where the destination already holds something else. *)
Definition stale_world : World :=
  mkWorld {[ "deed.docx"%string := []; "result.json"%string := [x41; x42] ]} [].

Definition missing_args : Namespace :=
  mkNamespace "absent.docx" (Some "result.json"%string).

(** A document in two parts and as a whole. *)
Definition parts_canned : gmap string (list str) :=
  {[ "part1.docx"%string := example_paragraphs;
     "part2.docx"%string := nonblank_paragraphs;
     "whole.docx"%string := example_paragraphs ++ nonblank_paragraphs ]}.

Definition parts_world : World :=
  mkWorld {[ "part1.docx"%string := []; "part2.docx"%string := [];
             "whole.docx"%string := [] ]} [].

(** A document whose text holds a lone surrogate. *)
Definition surrogate_canned : gmap string (list str) :=
  {[ "deed.docx"%string := [ [0x61; 0xD800] ] ]}.


(** ** Proof steps used more than once *)

(** Appends and concatenations, associated to the right. *)
Ltac norm_app :=
  repeat first [progress cbn [app concat] | rewrite <- app_assoc].

(** A test of a character against itself, then the branch it selects. *)
Ltac eqb_steps := repeat (rewrite N.eqb_refl; cbn [negb]; cbn iota).

(** The literals of the encoder, as code points. *)
Ltac lits :=
  change (lit "{") with [0x7B] in *; change (lit "}") with [0x7D] in *;
  change (lit ",") with [0x2C] in *; change (lit ": ") with [0x3A; 0x20] in *;
  change (lit "  ") with [0x20; 0x20] in *.

Example read_docx_text_example :
  fst (read_docx_text (fake_Document example_canned) "deed.docx" example_world)
  = Return (lit "Building ALPHA" ++ [NL] ++ lit "Unit PB A — 45.5 m²").
Proof. vm_compute. reflexivity. Qed.

Example main_example_exit :
  exit_code (fst (main (fake_Document example_canned)
                       (mkNamespace "deed.docx" (Some "result.json"%string))
                       None example_world)) = 0.
Proof. vm_compute. reflexivity. Qed.

Example strip_example :
  strip (lit "  x  ") = lit "x" /\ strip (lit "   ") = [] /\
  strip [0xA0; 0x61; 0x3000] = [0x61].
Proof. vm_compute. auto. Qed.

Example encode_basestring_example :
  encode_basestring [0x61; 0; 0x1F; 0x7F; QUOTE; BACKSLASH; 0x2F; 0xE9; NL]
  = QUOTE :: lit "a\u0000\u001f" ++ [0x7F; BACKSLASH; QUOTE]
    ++ lit "\\/é\n" ++ [QUOTE].
Proof. vm_compute. reflexivity. Qed.

(** ** The UTF-8 codec *)

Lemma to_N_byte_of_N (n : N) : n < 256 -> Byte.to_N (byte_of_N n) = n.
Proof.
  intros Hn. unfold byte_of_N. destruct (Byte.of_N n) as [b|] eqn:Hb.
  - by apply Byte.to_of_N.
  - apply Byte.of_N_None_iff in Hb. lia.
Qed.

Lemma is_cont_byte_of_N (n : N) : n < 0x40 -> is_cont (byte_of_N (0x80 + n)) = true.
Proof.
  intros Hn. unfold is_cont. rewrite to_N_byte_of_N by lia.
  apply andb_true_iff. split; [apply N.leb_le|apply N.ltb_lt]; lia.
Qed.

Lemma cont_bits_byte_of_N (n : N) : n < 0x40 -> cont_bits (byte_of_N (0x80 + n)) = n.
Proof. intros Hn. unfold cont_bits. rewrite to_N_byte_of_N by lia. lia. Qed.

(** Decoding undoes the encoding of one code point. *)
Lemma utf8_decode_encode_char (c : N) (bs rest : bytes) :
  utf8_encode_char c = Some bs ->
  utf8_decode (bs ++ rest) = cons c <$> utf8_decode rest.
Proof.
  unfold utf8_encode_char. intros Henc.
  assert (c mod 0x40 < 0x40) as Hd by (apply N.mod_lt; lia).
  assert ((c / 0x40) mod 0x40 < 0x40) as Hb by (apply N.mod_lt; lia).
  assert ((c / 0x1000) mod 0x40 < 0x40) as Ha by (apply N.mod_lt; lia).
  pose proof (N.div_mod c 0x40 ltac:(lia)) as E1.
  pose proof (N.div_mod (c / 0x40) 0x40 ltac:(lia)) as E2.
  pose proof (N.div_mod (c / 0x1000) 0x40 ltac:(lia)) as E3.
  rewrite N.Div0.div_div in E2. change (0x40 * 0x40) with 0x1000 in E2.
  replace (c / 0x1000 / 0x40) with (c / 0x40000) in E3
    by (rewrite N.Div0.div_div; reflexivity).
  remember (c mod 0x40) as d eqn:Ed.
  remember ((c / 0x40) mod 0x40) as b eqn:Eb.
  remember ((c / 0x1000) mod 0x40) as a eqn:Ea.
  remember (c / 0x40) as q1 eqn:Eq1.
  remember (c / 0x1000) as q2 eqn:Eq2.
  remember (c / 0x40000) as q3 eqn:Eq3.
  clear Ed Eb Ea Eq1 Eq2 Eq3.
  repeat case_match; try discriminate; injection Henc as <-;
    repeat match goal with
    | H : (_ <? _) = true |- _ => apply N.ltb_lt in H
    | H : (_ <? _) = false |- _ => apply N.ltb_ge in H
    end;
    cbn [app utf8_decode]; rewrite to_N_byte_of_N by lia.
  - by rewrite (proj2 (N.ltb_lt _ _)) by lia.
  - rewrite (proj2 (N.ltb_ge _ 0x80)) by lia.
    rewrite (proj2 (N.ltb_ge _ 0xC2)) by lia.
    rewrite is_cont_byte_of_N by done. cbn [negb].
    rewrite (proj2 (N.ltb_lt _ 0xE0)) by lia.
    rewrite cont_bits_byte_of_N by done.
    do 2 f_equal. lia.
  - rewrite (proj2 (N.ltb_ge _ 0x80)) by lia.
    rewrite (proj2 (N.ltb_ge _ 0xC2)) by lia.
    rewrite !is_cont_byte_of_N by done. cbn [negb].
    rewrite (proj2 (N.ltb_ge _ 0xE0)) by lia.
    rewrite (proj2 (N.ltb_lt _ 0xF0)) by lia.
    rewrite !cont_bits_byte_of_N by done.
    replace ((0xE0 + q2 - 0xE0) * 0x1000 + b * 0x40 + d) with c by lia.
    rewrite (proj2 (N.ltb_ge c 0x800)) by lia. cbn [orb].
    match goal with H : (_ && _) = false |- _ => rewrite H end.
    done.
  - rewrite (proj2 (N.ltb_ge _ 0x80)) by lia.
    rewrite (proj2 (N.ltb_ge _ 0xC2)) by lia.
    rewrite !is_cont_byte_of_N by done. cbn [negb].
    rewrite (proj2 (N.ltb_ge _ 0xE0)) by lia.
    rewrite (proj2 (N.ltb_ge _ 0xF0)) by lia.
    rewrite !cont_bits_byte_of_N by done.
    replace ((0xF0 + q3 - 0xF0) * 0x40000 + a * 0x1000 + b * 0x40 + d)
      with c by lia.
    rewrite (proj2 (N.ltb_ge c 0x10000)) by lia.
    rewrite (proj2 (N.leb_gt 0x110000 c)) by lia.
    done.
Qed.

(** A text that can be encoded is read back from its bytes. *)
Lemma utf8_decode_encode (s : str) (bs : bytes) :
  utf8_encode s = Some bs -> utf8_decode bs = Some s.
Proof.
  revert bs. induction s as [|c s IH]; intros bs Henc.
  - by simplify_eq/=.
  - cbn [utf8_encode] in Henc.
    destruct (utf8_encode_char c) as [b|] eqn:Hc; [|done].
    destruct (utf8_encode s) as [bs'|] eqn:Hs; [|done].
    simplify_eq. rewrite (utf8_decode_encode_char _ _ _ Hc), (IH _ eq_refl).
    done.
Qed.

(** The bytes of the prompt literal in the module are the UTF-8 encoding
    of the constant. *)
Lemma SYSTEM_PROMPT_utf8 :
  utf8_encode SYSTEM_PROMPT = Some (list_byte_of_string SYSTEM_PROMPT_literal).
Proof. vm_compute. reflexivity. Qed.

(** ** Blank paragraphs and [strip] *)

Lemma has_nonspace_spec (p : str) : has_nonspace p = true <-> nonblank p.
Proof.
  unfold has_nonspace, nonblank. induction p as [|c p IH].
  - simpl. split; [done|]. by intros H%Exists_nil.
  - simpl. rewrite Exists_cons, orb_true_iff, negb_true_iff, IH. done.
Qed.

Lemma has_nonspace_false (p : str) : has_nonspace p = false <-> blank p.
Proof.
  unfold has_nonspace, blank. induction p as [|c p IH].
  - simpl. split; [constructor|done].
  - simpl. rewrite Forall_cons, orb_false_iff, negb_false_iff, IH. done.
Qed.

Lemma blank_not_nonblank (p : str) : blank p <-> ~ nonblank p.
Proof.
  rewrite <- has_nonspace_false, <- has_nonspace_spec.
  destruct (has_nonspace p); split; congruence.
Qed.

Lemma has_nonspace_app (a b : str) :
  has_nonspace (a ++ b) = has_nonspace a || has_nonspace b.
Proof. unfold has_nonspace. apply existsb_app. Qed.

Lemma has_nonspace_rev (s : str) : has_nonspace (rev s) = has_nonspace s.
Proof.
  induction s as [|c s IH]; [done|].
  simpl rev. rewrite has_nonspace_app, IH. simpl.
  rewrite orb_false_r. apply orb_comm.
Qed.

Lemma truthy_lstrip (s : str) : truthy (lstrip s) = has_nonspace s.
Proof.
  induction s as [|c s IH]; [done|].
  simpl. destruct (isspace c); simpl; done.
Qed.

Lemma has_nonspace_lstrip (s : str) :
  has_nonspace (lstrip s) = has_nonspace s.
Proof.
  induction s as [|c s IH]; [done|].
  simpl. destruct (isspace c) eqn:Hc; simpl; [done|].
  by rewrite Hc.
Qed.

Lemma truthy_rev (s : str) : truthy (rev s) = truthy s.
Proof.
  destruct s as [|c s]; [done|].
  simpl. by destruct (rev s).
Qed.

(** The filter of line 169 keeps a line exactly when it has a character
    that is not white space. *)
Lemma truthy_strip (s : str) : truthy (strip s) = has_nonspace s.
Proof.
  unfold strip, rstrip.
  by rewrite truthy_rev, truthy_lstrip, has_nonspace_rev, has_nonspace_lstrip.
Qed.

Lemma filter_truthy_strip (ps : list str) :
  filter (fun line => truthy (strip line)) ps = filter nonblank ps.
Proof.
  apply list_filter_iff. intros p. rewrite truthy_strip.
  rewrite <- has_nonspace_spec. by destruct (has_nonspace p).
Qed.

Lemma filter_all_nonblank (ps : list str) :
  Forall nonblank ps -> filter nonblank ps = ps.
Proof.
  induction 1 as [|p ps Hp _ IH]; [done|].
  by rewrite filter_cons_True, IH.
Qed.

Lemma filter_all_blank (ps : list str) :
  Forall blank ps -> filter nonblank ps = [].
Proof.
  induction 1 as [|p ps Hp _ IH]; [done|].
  rewrite filter_cons_False; [done|]. by apply blank_not_nonblank.
Qed.

(** ** [join] *)

Lemma join_cons (sep x y : str) (rest : list str) :
  join sep (x :: y :: rest) = x ++ sep ++ join sep (y :: rest).
Proof. done. Qed.

Lemma fold_concat_join (acc p : str) (rest : list str) :
  fold_left (fun a q => a ++ [NL] ++ q) rest (acc ++ p)
  = acc ++ join [NL] (p :: rest).
Proof.
  revert acc p. induction rest as [|q rest IH]; intros acc p.
  - done.
  - rewrite join_cons. specialize (IH (acc ++ p ++ [NL]) q).
    rewrite <- !app_assoc in IH. simpl in IH |- *.
    rewrite <- app_assoc. exact IH.
Qed.

(** The left-to-right sum of the specification is what [join] builds. *)
Lemma join_spec_concat (ps : list str) : join [NL] ps = spec_concat ps.
Proof.
  destruct ps as [|p rest]; [done|].
  unfold spec_concat.
  by rewrite <- (app_nil_l p) at 2; rewrite fold_concat_join.
Qed.

Lemma length_join (sep : str) (ps : list str) :
  length (join sep ps)
  = (sum_list (map length ps) + length sep * pred (length ps))%nat.
Proof.
  induction ps as [|p [|q rest] IH].
  - simpl. lia.
  - simpl. lia.
  - rewrite join_cons, !length_app, IH.
    change (pred (length (p :: q :: rest))) with (S (length rest)).
    change (pred (length (q :: rest))) with (length rest).
    rewrite Nat.mul_succ_r. simpl.
    generalize (sum_list (map length rest)) (length sep * length rest)%nat.
    intros; lia.
Qed.

Lemma count_char_app (c : N) (a b : str) :
  count_char c (a ++ b) = (count_char c a + count_char c b)%nat.
Proof. unfold count_char. by rewrite filter_app, length_app. Qed.

Lemma count_char_join (ps : list str) :
  count_char NL (join [NL] ps)
  = (sum_list (map (count_char NL) ps) + pred (length ps))%nat.
Proof.
  induction ps as [|p [|q rest] IH].
  - done.
  - simpl. lia.
  - rewrite join_cons, !count_char_app, IH.
    change (count_char NL [NL]) with 1%nat. simpl.
    generalize (sum_list (map (count_char NL) rest)). intros; lia.
Qed.

Lemma split_on_nonempty (sep : N) (s : str) : split_on sep s <> [].
Proof.
  destruct s as [|c s]; [done|].
  simpl. destruct (split_on sep s); [done|]. by destruct (c =? sep).
Qed.

Lemma split_on_app (sep : N) (p s : str) :
  sep ∉ p ->
  split_on sep (p ++ sep :: s) = p :: split_on sep s.
Proof.
  induction p as [|c p IH]; intros Hp.
  - simpl. destruct (split_on sep s) eqn:Hs.
    + by apply split_on_nonempty in Hs.
    + by rewrite N.eqb_refl.
  - apply not_elem_of_cons in Hp as [Hc Hp].
    simpl. rewrite (IH Hp).
    destruct (N.eqb_spec c sep); [congruence|done].
Qed.

Lemma split_on_single (sep : N) (p : str) :
  sep ∉ p -> split_on sep p = [p].
Proof.
  induction p as [|c p IH]; intros Hp; [done|].
  apply not_elem_of_cons in Hp as [Hc Hp].
  simpl. rewrite (IH Hp).
  destruct (N.eqb_spec c sep); [congruence|done].
Qed.

(** When no paragraph holds a newline of its own, the lines of the joined
    text are the paragraphs: none split, none merged. *)
Lemma split_on_join (ps : list str) :
  ps <> [] -> Forall (fun p => NL ∉ p) ps ->
  split_on NL (join [NL] ps) = ps.
Proof.
  intros Hne Hall. induction Hall as [|p rest Hp Hrest IH]; [done|].
  destruct rest as [|q rest].
  - simpl. by apply split_on_single.
  - rewrite join_cons. simpl app. rewrite split_on_app by done.
    f_equal. by apply IH.
Qed.

(** ** Text extraction *)

Section IngestFacts.

Variable Document : gmap string bytes -> Path -> result DocxDocument.

Lemma read_docx_text_Return (path : Path) (w : World) (doc : DocxDocument) :
  Document (files w) path = Return doc ->
  read_docx_text Document path w
  = (Return (join [NL] (filter nonblank (map text (paragraphs doc)))), w).
Proof.
  intros Hdoc. unfold read_docx_text, bind, reading, ret.
  by rewrite Hdoc, filter_truthy_strip.
Qed.

Lemma read_docx_text_Raise (path : Path) (w : World) (e : exn) :
  Document (files w) path = Raise e ->
  read_docx_text Document path w = (Raise e, w).
Proof.
  intros Hdoc. unfold read_docx_text, bind, reading. by rewrite Hdoc.
Qed.

Lemma build_payload_Return (path : Path) (w : World) (doc : DocxDocument) :
  Document (files w) path = Return doc ->
  build_payload Document path w
  = (Return (payload_of SYSTEM_PROMPT
               (join [NL] (filter nonblank (map text (paragraphs doc))))),
     w).
Proof.
  intros Hdoc. unfold build_payload, bind.
  by rewrite (read_docx_text_Return _ _ _ Hdoc).
Qed.

Lemma build_payload_Raise (path : Path) (w : World) (e : exn) :
  Document (files w) path = Raise e ->
  build_payload Document path w = (Raise e, w).
Proof.
  intros Hdoc. unfold build_payload, bind.
  by rewrite (read_docx_text_Raise _ _ _ Hdoc).
Qed.

(** Whatever the document library answers, a payload that is built has
    the two fields, the constant first. *)
Lemma build_payload_inv (path : Path) (w w' : World) (payload : dict) :
  build_payload Document path w = (Return payload, w') ->
  exists doc,
    Document (files w) path = Return doc /\ w' = w /\
    payload = payload_of SYSTEM_PROMPT
                (join [NL] (filter nonblank (map text (paragraphs doc)))).
Proof.
  intros Hb. destruct (Document (files w) path) as [doc|e] eqn:Hdoc.
  - rewrite (build_payload_Return _ _ _ Hdoc) in Hb.
    exists doc. by inversion Hb.
  - by rewrite (build_payload_Raise _ _ _ Hdoc) in Hb.
Qed.

End IngestFacts.

Lemma payload_of_items (system_prompt deed_text : str) :
  payload_of system_prompt deed_text
  = [ (lit "system_prompt", system_prompt); (lit "deed_text", deed_text) ].
Proof. reflexivity. Qed.

(** C1. For a document whose paragraphs [p1, ..., pn] are all non-blank,
    extraction returns exactly [p1 + "\n" + p2 + ... + "\n" + pn]: every
    paragraph whole, in the order of the document. *)
Theorem read_docx_text_all_nonblank
    (Document : gmap string bytes -> Path -> result DocxDocument)
    (path : Path) (w : World) (doc : DocxDocument) :
  Document (files w) path = Return doc ->
  Forall nonblank (map text (paragraphs doc)) ->
  read_docx_text Document path w
  = (Return (spec_concat (map text (paragraphs doc))), w).
Proof.
  intros Hdoc Hall.
  rewrite (read_docx_text_Return _ _ _ _ Hdoc).
  by rewrite (filter_all_nonblank _ Hall), join_spec_concat.
Qed.

Lemma read_docx_text_all_nonblank_witness :
  read_docx_text (fake_Document nonblank_canned) "deed.docx" example_world
  = (Return (spec_concat
               (map text (paragraphs (canned_document nonblank_paragraphs)))),
     example_world).
Proof.
  apply (read_docx_text_all_nonblank (fake_Document nonblank_canned)
           "deed.docx" example_world (canned_document nonblank_paragraphs)).
  - vm_compute. reflexivity.
  - apply (bool_decide_unpack _). vm_compute. reflexivity.
Defined.

(** C2. Extraction keeps a paragraph if and only if it has a character
    that is not white space; the text is the kept paragraphs joined by one
    newline each, so a dropped paragraph leaves no character behind: the
    length of the text and its number of newlines are those of the kept
    paragraphs plus one separator between neighbours. *)
Theorem read_docx_text_drops_blank
    (Document : gmap string bytes -> Path -> result DocxDocument)
    (path : Path) (w : World) (doc : DocxDocument) :
  Document (files w) path = Return doc ->
  let kept := filter nonblank (map text (paragraphs doc)) in
  read_docx_text Document path w = (Return (join [NL] kept), w)
  /\ (forall p, p ∈ kept <-> p ∈ map text (paragraphs doc) /\ nonblank p)
  /\ kept `sublist_of` map text (paragraphs doc)
  /\ length (join [NL] kept)
     = (sum_list (map length kept) + pred (length kept))%nat
  /\ count_char NL (join [NL] kept)
     = (sum_list (map (count_char NL) kept) + pred (length kept))%nat.
Proof.
  intros Hdoc kept. split; [|split; [|split; [|split]]].
  - by apply read_docx_text_Return.
  - intros p. unfold kept. rewrite list_elem_of_filter. tauto.
  - apply sublist_filter.
  - rewrite length_join. simpl. by rewrite Nat.add_0_r.
  - apply count_char_join.
Qed.

Lemma read_docx_text_drops_blank_witness :
  fst (read_docx_text (fake_Document example_canned) "deed.docx" example_world)
  = Return (join [NL] (filter nonblank
              (map text (paragraphs (canned_document example_paragraphs))))).
Proof.
  destruct (read_docx_text_drops_blank (fake_Document example_canned)
              "deed.docx" example_world (canned_document example_paragraphs))
    as [Hread _].
  - vm_compute. reflexivity.
  - rewrite Hread. reflexivity.
Defined.

(** C9. A document with no paragraphs, or with blank paragraphs only,
    yields the empty text, and the payload built from it has
    [deed_text] equal to the empty string. *)
Theorem read_docx_text_all_blank
    (Document : gmap string bytes -> Path -> result DocxDocument)
    (path : Path) (w : World) (doc : DocxDocument) :
  Document (files w) path = Return doc ->
  Forall blank (map text (paragraphs doc)) ->
  read_docx_text Document path w = (Return [], w)
  /\ exists payload,
       build_payload Document path w = (Return payload, w)
       /\ dict_get payload (lit "deed_text") = Some [].
Proof.
  intros Hdoc Hall. split.
  - rewrite (read_docx_text_Return _ _ _ _ Hdoc).
    by rewrite (filter_all_blank _ Hall).
  - eexists. split.
    + apply (build_payload_Return _ _ _ _ Hdoc).
    + rewrite (filter_all_blank _ Hall). reflexivity.
Qed.

Lemma read_docx_text_all_blank_witness :
  read_docx_text (fake_Document blank_canned) "deed.docx" example_world
  = (Return [], example_world)
  /\ exists payload,
       build_payload (fake_Document blank_canned) "deed.docx" example_world
       = (Return payload, example_world)
       /\ dict_get payload (lit "deed_text") = Some [].
Proof.
  apply (read_docx_text_all_blank (fake_Document blank_canned)
           "deed.docx" example_world (canned_document blank_paragraphs)).
  - vm_compute. reflexivity.
  - apply (bool_decide_unpack _). vm_compute. reflexivity.
Defined.

(** C10. A paragraph that passes the filter reaches the text as it is:
    [strip] only decides whether it stays, so its own leading and trailing
    white space is kept.  It stands between the kept paragraphs before it
    and those after it. *)
Theorem read_docx_text_keeps_verbatim
    (Document : gmap string bytes -> Path -> result DocxDocument)
    (path : Path) (w : World) (doc : DocxDocument)
    (before after : list str) (p : str) :
  Document (files w) path = Return doc ->
  map text (paragraphs doc) = before ++ p :: after ->
  nonblank p ->
  read_docx_text Document path w
  = (Return (join [NL] (filter nonblank before ++ p :: filter nonblank after)),
     w).
Proof.
  intros Hdoc Hps Hp.
  rewrite (read_docx_text_Return _ _ _ _ Hdoc), Hps.
  by rewrite filter_app, filter_cons_True.
Qed.

Lemma read_docx_text_keeps_verbatim_witness :
  read_docx_text (fake_Document nonblank_canned) "deed.docx" example_world
  = (Return (lit "Building ALPHA" ++ [NL] ++ lit "  x  " ++ [NL]
             ++ lit "Unit PB A — 45.5 m²"),
     example_world)
  /\ strip (lit "  x  ") <> lit "  x  ".
Proof.
  split.
  - apply (read_docx_text_keeps_verbatim (fake_Document nonblank_canned)
             "deed.docx" example_world (canned_document nonblank_paragraphs)
             [lit "Building ALPHA"] [lit "Unit PB A — 45.5 m²"] (lit "  x  ")).
    + vm_compute. reflexivity.
    + vm_compute. reflexivity.
    + apply (bool_decide_unpack _). vm_compute. reflexivity.
  - vm_compute. discriminate.
Defined.

(** ** The string encoder and the string scanner *)

Lemma escape_char_literal (c : N) :
  ESCAPE c = false -> escape_char c = [c].
Proof. unfold escape_char. by intros ->. Qed.

Lemma ESCAPE_false (c : N) :
  ESCAPE c = false <-> 0x20 <= c /\ c <> BACKSLASH /\ c <> QUOTE.
Proof.
  unfold ESCAPE. rewrite !orb_false_iff, N.leb_gt, !N.eqb_neq. lia.
Qed.

(** Every escape is made of printable ASCII: backslash, a letter or the
    [u00xx] form. *)
Lemma escape_char_control (c : N) :
  c < 0x20 ->
  Forall (fun x => 0x20 <= x /\ x < 0x7F) (escape_char c).
Proof.
  intros Hc. destruct c as [|p]; [by vm_compute; repeat constructor|].
  do 5 (destruct p as [p|p|];
        try (vm_compute; repeat constructor; done)); lia.
Qed.

(** The scanner undoes one escaped character. *)
Lemma scanstring_escape_char (c : N) (t : str) :
  scanstring (escape_char c ++ t) = push c (scanstring t).
Proof.
  destruct (N.ltb_spec c 0x20) as [Hc|Hc].
  - destruct c as [|p]; [reflexivity|].
    do 5 (destruct p as [p|p|]; try reflexivity); lia.
  - destruct (N.eq_dec c QUOTE) as [->|Hq]; [reflexivity|].
    destruct (N.eq_dec c BACKSLASH) as [->|Hb]; [reflexivity|].
    rewrite escape_char_literal by (apply ESCAPE_false; done).
    cbn [app scanstring].
    apply N.eqb_neq in Hq, Hb. apply N.ltb_ge in Hc.
    by rewrite Hq, Hb, Hc.
Qed.

Lemma scanstring_encoded (s rest : str) :
  scanstring (flat_map escape_char s ++ QUOTE :: rest) = Ok (s, rest).
Proof.
  induction s as [|c s IH]; [reflexivity|].
  cbn [flat_map]. rewrite <- app_assoc, scanstring_escape_char, IH.
  reflexivity.
Qed.

(** A value scanned from its own encoding: the string and what follows. *)
Lemma scan_once_encoded (s rest : str) :
  scan_once (encode_basestring s ++ rest) = Ok (s, rest).
Proof.
  unfold encode_basestring. cbn [app scan_once].
  rewrite N.eqb_refl, <- app_assoc. apply scanstring_encoded.
Qed.

(** What [encode_basestring] lets through unescaped, and only that. *)
Lemma escape_char_no_control (c : N) :
  Forall (fun x => 0x20 <= x) (escape_char c).
Proof.
  destruct (N.ltb_spec c 0x20) as [Hc|Hc].
  - eapply Forall_impl; [by apply escape_char_control|].
    intros x. simpl. lia.
  - unfold escape_char. destruct (ESCAPE c) eqn:He.
    + unfold ESCAPE in He.
      assert (c = BACKSLASH \/ c = QUOTE) as [->| ->];
        [|by vm_compute; repeat constructor..].
      apply orb_true_iff in He as [He|He%N.eqb_eq]; [|by right].
      apply orb_true_iff in He as [He%N.leb_le|He%N.eqb_eq]; [lia|by left].
    + by repeat constructor.
Qed.

Lemma encode_basestring_no_control (s : str) :
  Forall (fun x => 0x20 <= x) (encode_basestring s).
Proof.
  unfold encode_basestring. constructor; [by vm_compute|].
  apply Forall_app. split.
  - induction s as [|c s IH]; [constructor|].
    cbn [flat_map]. apply Forall_app. split; [|done].
    apply escape_char_no_control.
  - repeat constructor. by vm_compute.
Qed.

Lemma encode_basestring_no_NL (s : str) : NL ∉ encode_basestring s.
Proof.
  intros Hin.
  pose proof (encode_basestring_no_control s) as Hall.
  rewrite Forall_forall in Hall. specialize (Hall _ Hin).
  by vm_compute in Hall.
Qed.

(** Characters past ASCII are written as they are. *)
Lemma escape_char_non_ascii (c : N) : 0x80 <= c -> escape_char c = [c].
Proof.
  intros Hc. apply escape_char_literal, ESCAPE_false.
  unfold BACKSLASH, QUOTE. lia.
Qed.

Lemma filter_non_ascii_escape (c : N) :
  filter non_ascii (escape_char c) = filter non_ascii [c].
Proof.
  destruct (N.le_gt_cases 0x80 c) as [Hc|Hc].
  - by rewrite escape_char_non_ascii.
  - rewrite (filter_cons_False _ c) by (unfold non_ascii; lia).
    destruct (N.ltb_spec c 0x20) as [Hlo|Hlo].
    + pose proof (escape_char_control c Hlo) as Hall.
      induction Hall as [|x l [_ Hx] _ IH]; [done|].
      rewrite filter_cons_False by (unfold non_ascii; lia). done.
    + unfold escape_char. destruct (ESCAPE c) eqn:He.
      * unfold ESCAPE in He.
        assert (c = BACKSLASH \/ c = QUOTE) as [->| ->];
          [|by vm_compute..].
        apply orb_true_iff in He as [He|He%N.eqb_eq]; [|by right].
        apply orb_true_iff in He as [He%N.leb_le|He%N.eqb_eq]; [lia|by left].
      * rewrite filter_cons_False by (unfold non_ascii; lia). done.
Qed.

Lemma filter_non_ascii_cons_ascii (c : N) (l : str) :
  c < 0x80 -> filter non_ascii (c :: l) = filter non_ascii l.
Proof. intros Hc. apply filter_cons_False. unfold non_ascii. lia. Qed.

(** The encoder adds no character past ASCII and loses none: those of the
    encoding are those of the string, in order. *)
Lemma filter_non_ascii_encode (s : str) :
  filter non_ascii (encode_basestring s) = filter non_ascii s.
Proof.
  unfold encode_basestring.
  rewrite filter_cons_False by (by vm_compute).
  rewrite filter_app, (filter_cons_False _ QUOTE) by (by vm_compute).
  rewrite app_nil_r.
  induction s as [|c s IH]; [done|].
  cbn [flat_map]. rewrite filter_app, IH, filter_non_ascii_escape.
  by rewrite <- filter_app.
Qed.

(** ** The scanners consume text *)

Lemma push_Ok_inv (c : N) (r : outcome (str * str)) (v rest : str) :
  push c r = Ok (v, rest) ->
  exists v', r = Ok (v', rest) /\ v = c :: v'.
Proof.
  destruct r as [[v' rest']| |]; simpl; intros H; simplify_eq. eauto.
Qed.

Lemma length_skip_ws (s : str) : (length (skip_ws s) <= length s)%nat.
Proof.
  induction s as [|c s IH]; [done|].
  simpl. destruct (is_ws c); simpl; lia.
Qed.

Lemma scanstring_shorter_aux (n : nat) :
  forall (s v rest : str),
    (length s <= n)%nat ->
    scanstring s = Ok (v, rest) -> (length rest < length s)%nat.
Proof.
  induction n as [|n IH]; intros s v rest Hn Hscan.
  - destruct s; [done|simpl in Hn; lia].
  - destruct s as [|c s1]; [done|].
    cbn [scanstring] in Hscan. cbn [length] in Hn |- *.
    repeat (case_match; simplify_eq; try done; cbn [length] in * );
      try (cbn [length]; lia);
      repeat match goal with
      | H : push _ (scanstring ?t) = Ok _ |- _ =>
          apply push_Ok_inv in H as (? & H & ->);
          apply IH in H; cbn [length] in *; [lia|lia]
      end.
Qed.

(** A scanned string is followed by less text than was given. *)
Lemma scanstring_shorter (s v rest : str) :
  scanstring s = Ok (v, rest) -> (length rest < length s)%nat.
Proof. by apply (scanstring_shorter_aux (length s)). Qed.

Lemma scan_once_shorter (s v rest : str) :
  scan_once s = Ok (v, rest) -> (length rest < length s)%nat.
Proof.
  destruct s as [|c s1]; [done|]. cbn [scan_once].
  case_match; [|done]. intros Hs%scanstring_shorter. simpl. lia.
Qed.

(** The loop never runs out of turns: any two supplies above the length
    of the text give the same answer. *)
Lemma JSONObject_loop_fuel (fuel1 : nat) :
  forall (fuel2 : nat) (s : str) (pairs : list (str * str)),
    (length s < fuel1)%nat -> (length s < fuel2)%nat ->
    JSONObject_loop fuel1 s pairs = JSONObject_loop fuel2 s pairs.
Proof.
  induction fuel1 as [|fuel1 IH]; intros fuel2 s pairs H1 H2; [lia|].
  destruct fuel2 as [|fuel2]; [lia|].
  cbn [JSONObject_loop].
  destruct (scanstring s) as [[key s1]| |] eqn:Hkey; [|done..].
  apply scanstring_shorter in Hkey.
  set (s2 := match s1 with
             | [] => s1
             | c :: _ => if c =? 58 then s1 else skip_ws s1
             end).
  assert (length s2 <= length s1)%nat as Hs2.
  { unfold s2. destruct s1 as [|c t]; [done|].
    destruct (c =? 58); [done|apply length_skip_ws]. }
  destruct s2 as [|c s3]; [done|]. cbn [length] in Hs2.
  destruct (negb (c =? 58)); [done|].
  pose proof (length_skip_ws s3) as Hs3.
  destruct (scan_once (skip_ws s3)) as [[value s4]| |] eqn:Hval; [|done..].
  apply scan_once_shorter in Hval.
  pose proof (length_skip_ws s4) as Hs4.
  destruct (skip_ws s4) as [|nextchar s5]; [done|]. cbn [length] in Hs4.
  destruct (nextchar =? 125); [done|].
  destruct (negb (nextchar =? 44)); [done|].
  pose proof (length_skip_ws s5) as Hs5.
  destruct (skip_ws s5) as [|q s6]; [done|]. cbn [length] in Hs5.
  destruct (q =? QUOTE); [|done].
  apply IH; lia.
Qed.

(** ** Serialisation and parsing of a whole object *)

Lemma iterencode_items_text (items : dict) (first : bool) (tl : str) :
  items <> [] ->
  concat (iterencode_items [0x2C; NL; 0x20; 0x20] first items)
  ++ NL :: 0x7D :: tl
  = (if first then [] else [0x2C; NL; 0x20; 0x20])
    ++ QUOTE :: items_text items tl.
Proof.
  revert first. induction items as [|[k v] rest IH]; [done|]. intros first _.
  assert (concat (iterencode_items [0x2C; NL; 0x20; 0x20] false rest)
          ++ NL :: 0x7D :: tl
          = match rest with
            | [] => NL :: 0x7D :: tl
            | _ :: _ => 0x2C :: NL :: 0x20 :: 0x20 :: QUOTE :: items_text rest tl
            end) as Hrest.
  { destruct rest as [|kv rest]; [reflexivity|]. by rewrite IH. }
  cbn [iterencode_items items_text]. unfold key_separator, encode_basestring at 1.
  lits. destruct first; norm_app; rewrite Hrest; by destruct rest.
Qed.

Lemma json_dumps_text (d : dict) :
  d <> [] ->
  json_dumps d 2 = 0x7B :: NL :: 0x20 :: 0x20 :: QUOTE :: items_text d [].
Proof.
  intros Hd. destruct d as [|kv d]; [done|].
  unfold json_dumps, iterencode_dict. lits.
  change (str_mul (repeat 0x20 2) 1) with [0x20; 0x20].
  change (str_mul (repeat 0x20 2) 0) with (@nil N).
  norm_app. rewrite concat_app. norm_app.
  by rewrite (iterencode_items_text (kv :: d) true []).
Qed.

Lemma length_items_text (items : dict) (tl : str) :
  (length items <= length (items_text items tl))%nat.
Proof.
  induction items as [|[k v] rest IH]; [simpl; lia|].
  cbn [items_text]. rewrite !length_app. destruct rest as [|kv rest].
  - simpl. lia.
  - rewrite length_app. cbn [length] in IH |- *.
    rewrite length_app. cbn [length]. lia.
Qed.

Lemma skip_ws_stop (c : N) (t : str) :
  is_ws c = false -> skip_ws (c :: t) = c :: t.
Proof. intros H. cbn [skip_ws]. by rewrite H. Qed.

Lemma skip_ws_indent (t : str) :
  skip_ws (NL :: 0x20 :: 0x20 :: QUOTE :: t) = QUOTE :: t.
Proof. reflexivity. Qed.

(** The loop of [JSONObject] reads the items back, one turn each. *)
Lemma JSONObject_loop_items (items : dict) :
  forall (pairs : list (str * str)) (fuel : nat) (tl : str),
    items <> [] -> (length items <= fuel)%nat ->
    JSONObject_loop fuel (items_text items tl) pairs
    = Ok (pairs ++ items, tl).
Proof.
  induction items as [|[k v] rest IH]; [done|].
  intros pairs fuel tl _ Hfuel.
  destruct fuel as [|fuel]; [simpl in Hfuel; lia|].
  cbn [items_text JSONObject_loop]. lits. norm_app.
  rewrite scanstring_encoded. cbn iota. eqb_steps.
  change (skip_ws (0x20 :: ?t)) with (skip_ws t).
  unfold encode_basestring at 1. norm_app.
  rewrite (skip_ws_stop QUOTE) by reflexivity.
  cbv [scan_once]. eqb_steps. rewrite scanstring_encoded.
  destruct rest as [|kv rest].
  - reflexivity.
  - rewrite (skip_ws_stop 0x2C) by reflexivity.
    change (0x2C =? 0x7D) with false. cbn iota. eqb_steps.
    rewrite skip_ws_indent. eqb_steps.
    rewrite IH; [|done|simpl in Hfuel |- *; lia].
    by rewrite <- app_assoc.
Qed.

Lemma dict_setitem_fresh (d : dict) (k v : str) :
  k ∉ dict_keys d -> dict_setitem d k v = d ++ [(k, v)].
Proof.
  induction d as [|[k' v'] d IH]; [done|].
  intros Hk. apply not_elem_of_cons in Hk as [Hne Hk].
  cbn [dict_setitem]. unfold str_eqb.
  rewrite bool_decide_eq_false_2 by (simpl in Hne; congruence).
  by rewrite IH.
Qed.

Lemma dict_display_app (acc items : dict) :
  NoDup (dict_keys (acc ++ items)) ->
  fold_left (fun d kv => dict_setitem d (fst kv) (snd kv)) items acc
  = acc ++ items.
Proof.
  revert acc. induction items as [|[k v] items IH]; intros acc Hnd.
  - by rewrite app_nil_r.
  - cbn [fold_left fst snd].
    assert (k ∉ dict_keys acc) as Hk.
    { unfold dict_keys in Hnd. rewrite map_app in Hnd.
      apply NoDup_app in Hnd as (_ & Hdis & _).
      intros Hin. apply (Hdis k Hin). simpl. left. }
    rewrite (dict_setitem_fresh _ _ _ Hk), IH.
    + by rewrite <- app_assoc.
    + by rewrite <- app_assoc.
Qed.

(** [dict(pairs)] of pairs with distinct keys is those pairs, in order. *)
Lemma dict_display_NoDup (items : dict) :
  NoDup (dict_keys items) -> dict_display items = items.
Proof. intros Hnd. unfold dict_display. by rewrite dict_display_app. Qed.

(** A dict serialised with [indent=2] and parsed again is the dict. *)
Lemma json_loads_dumps (d : dict) :
  NoDup (dict_keys d) -> json_loads (json_dumps d 2) = Ok d.
Proof.
  intros Hnd. destruct d as [|kv d]; [reflexivity|].
  rewrite json_dumps_text by done.
  unfold json_loads. rewrite (skip_ws_stop 0x7B) by reflexivity.
  eqb_steps. unfold JSONObject.
  change (NL =? QUOTE) with false. cbn iota.
  rewrite skip_ws_indent. eqb_steps.
  rewrite JSONObject_loop_items;
    [|done|apply Nat.le_le_succ_r, length_items_text].
  cbn [app]. by rewrite dict_display_NoDup.
Qed.

Lemma payload_of_NoDup (system_prompt deed_text : str) :
  NoDup (dict_keys (payload_of system_prompt deed_text)).
Proof.
  rewrite payload_of_items. cbn [dict_keys map fst].
  apply (bool_decide_unpack _). vm_compute. reflexivity.
Qed.

(** ** The payload *)

(** C3. Whatever the path, a payload that is built is a mapping with
    exactly two string-valued fields, [system_prompt] first and
    [deed_text] second, and nothing else. *)
Theorem build_payload_two_fields
    (Document : gmap string bytes -> Path -> result DocxDocument)
    (path : Path) (w w' : World) (payload : dict) :
  build_payload Document path w = (Return payload, w') ->
  dict_keys payload = [lit "system_prompt"; lit "deed_text"]
  /\ length payload = 2%nat
  /\ exists system_prompt deed_text,
       payload = [ (lit "system_prompt", system_prompt);
                   (lit "deed_text", deed_text) ].
Proof.
  intros (doc & _ & _ & ->)%build_payload_inv.
  rewrite payload_of_items. split; [done|]. split; [done|]. eauto.
Qed.

Lemma build_payload_two_fields_witness :
  dict_keys (payload_of SYSTEM_PROMPT
               (lit "Building ALPHA" ++ [NL] ++ lit "Unit PB A — 45.5 m²"))
  = [lit "system_prompt"; lit "deed_text"].
Proof.
  apply (build_payload_two_fields (fake_Document example_canned)
           "deed.docx" example_world example_world).
  vm_compute. reflexivity.
Defined.

(** C4. The [system_prompt] field of every payload that is built is the
    compiled-in constant, and so is its value after the payload has been
    serialised and parsed again; the UTF-8 bytes of the constant are the
    bytes of the literal in the module. *)
Theorem system_prompt_unaltered
    (Document : gmap string bytes -> Path -> result DocxDocument)
    (path : Path) (w w' : World) (payload : dict) :
  build_payload Document path w = (Return payload, w') ->
  dict_get payload (lit "system_prompt") = Some SYSTEM_PROMPT
  /\ (exists parsed,
        json_loads (json_dumps payload 2) = Ok parsed
        /\ dict_get parsed (lit "system_prompt") = Some SYSTEM_PROMPT)
  /\ utf8_encode SYSTEM_PROMPT
     = Some (list_byte_of_string SYSTEM_PROMPT_literal).
Proof.
  intros (doc & _ & _ & ->)%build_payload_inv.
  split; [reflexivity|]. split.
  - eexists. split.
    + apply json_loads_dumps, payload_of_NoDup.
    + reflexivity.
  - apply SYSTEM_PROMPT_utf8.
Qed.

Lemma system_prompt_unaltered_witness :
  dict_get (payload_of SYSTEM_PROMPT
              (lit "Building ALPHA" ++ [NL] ++ lit "Unit PB A — 45.5 m²"))
           (lit "system_prompt")
  = Some SYSTEM_PROMPT.
Proof.
  apply (system_prompt_unaltered (fake_Document example_canned)
           "deed.docx" example_world example_world).
  vm_compute. reflexivity.
Defined.

(** ** The serialised text *)

Lemma json_dumps_payload (system_prompt deed_text : str) :
  json_dumps (payload_of system_prompt deed_text) 2
  = join [NL]
      [ lit "{";
        lit "  " ++ encode_basestring (lit "system_prompt") ++ lit ": "
          ++ encode_basestring system_prompt ++ lit ",";
        lit "  " ++ encode_basestring (lit "deed_text") ++ lit ": "
          ++ encode_basestring deed_text;
        lit "}" ].
Proof.
  rewrite json_dumps_text by done. rewrite payload_of_items.
  cbn [items_text join]. unfold encode_basestring. lits. by norm_app.
Qed.

(** C5. The serialised payload keeps every character past ASCII as it
    is, none escaped and none added; it is pretty-printed on four lines,
    the two fields indented by two spaces each; and [system_prompt] comes
    before [deed_text]. *)
Theorem json_dumps_pretty (system_prompt deed_text : str) :
  let text := json_dumps (payload_of system_prompt deed_text) 2 in
  let lines :=
    [ lit "{";
      lit "  " ++ encode_basestring (lit "system_prompt") ++ lit ": "
        ++ encode_basestring system_prompt ++ lit ",";
      lit "  " ++ encode_basestring (lit "deed_text") ++ lit ": "
        ++ encode_basestring deed_text;
      lit "}" ] in
  text = join [NL] lines
  /\ split_on NL text = lines
  /\ filter non_ascii text
     = filter non_ascii system_prompt ++ filter non_ascii deed_text
  /\ (forall c, non_ascii c -> escape_char c = [c]).
Proof.
  intros text lines. unfold text. rewrite json_dumps_payload.
  split; [done|]. split; [|split].
  - apply split_on_join; [done|].
    repeat first [apply List.Forall_cons | apply List.Forall_nil].
    + by apply (bool_decide_unpack _); vm_compute.
    + rewrite !not_elem_of_app. repeat split;
        try apply encode_basestring_no_NL;
        by apply (bool_decide_unpack _); vm_compute.
    + rewrite !not_elem_of_app. repeat split;
        try apply encode_basestring_no_NL;
        by apply (bool_decide_unpack _); vm_compute.
    + by apply (bool_decide_unpack _); vm_compute.
  - unfold lines. cbn [join]. lits.
    repeat first
      [ rewrite filter_app
      | rewrite filter_non_ascii_encode
      | rewrite filter_non_ascii_cons_ascii by (by vm_compute)
      | rewrite filter_nil ].
    change (filter non_ascii (lit "system_prompt")) with (@nil N).
    change (filter non_ascii (lit "deed_text")) with (@nil N).
    cbn [app]. by rewrite !app_nil_r.
  - intros c Hc. by apply escape_char_non_ascii.
Qed.

(** C6. Serialising a payload and parsing the text gives the payload
    back, with both fields present and their values unchanged. *)
Theorem json_round_trip (system_prompt deed_text : str) :
  exists parsed,
    json_loads (json_dumps (payload_of system_prompt deed_text) 2) = Ok parsed
    /\ parsed = payload_of system_prompt deed_text
    /\ dict_get parsed (lit "system_prompt") = Some system_prompt
    /\ dict_get parsed (lit "deed_text") = Some deed_text.
Proof.
  eexists. split; [apply json_loads_dumps, payload_of_NoDup|].
  split; [done|]. split; reflexivity.
Qed.

(** ** The driver *)

Section MainFacts.

Variable Document : gmap string bytes -> Path -> result DocxDocument.

(** A document that cannot be opened ends the run before anything is
    written. *)
Lemma main_Raise (args : Namespace) (fault : option io_fault) (w : World)
    (e : exn) :
  Document (files w) (docx_path args) = Raise e ->
  main Document args fault w = (Raise e, w).
Proof.
  intros Hdoc. unfold main, bind.
  by rewrite (build_payload_Raise _ _ _ _ Hdoc).
Qed.

Lemma main_Return (args : Namespace) (fault : option io_fault) (w : World)
    (doc : DocxDocument) :
  Document (files w) (docx_path args) = Return doc ->
  main Document args fault w
  = let output_text :=
      json_dumps
        (payload_of SYSTEM_PROMPT
           (join [NL] (filter nonblank (map text (paragraphs doc))))) 2 in
    match output args with
    | Some destination =>
        _ <- write_text fault destination output_text ;; ret tt
    | None => print output_text
    end w.
Proof.
  intros Hdoc. unfold main. unfold bind at 1.
  by rewrite (build_payload_Return _ _ _ _ Hdoc).
Qed.

End MainFacts.

(** C7. When the document path names no file, the run ends with a
    non-zero exit status and the world is left as it was: the destination,
    if one was given, is neither created nor overwritten, and nothing is
    printed. *)
Theorem main_missing_document
    (Document : gmap string bytes -> Path -> result DocxDocument)
    (args : Namespace) (fault : option io_fault) (w : World) :
  (forall fs path, fs !! path = None -> exists e, Document fs path = Raise e) ->
  files w !! docx_path args = None ->
  exists e,
    main Document args fault w = (Raise e, w)
    /\ exit_code (fst (main Document args fault w)) <> 0.
Proof.
  intros Hmissing Hnone.
  destruct (Hmissing _ _ Hnone) as [e He].
  exists e. rewrite (main_Raise _ _ _ _ _ He). split; [done|].
  simpl. lia.
Qed.

Lemma main_missing_document_witness :
  exists e,
    main (fake_Document example_canned) missing_args None stale_world
    = (Raise e, stale_world)
    /\ exit_code (fst (main (fake_Document example_canned) missing_args None
                          stale_world)) <> 0.
Proof.
  apply (main_missing_document (fake_Document example_canned)
           missing_args None stale_world).
  - intros fs path Hnone. unfold fake_Document. rewrite Hnone. eauto.
  - vm_compute. reflexivity.
Defined.

(** C8. When a destination is given and the run ends with exit status 0,
    the destination holds the whole UTF-8 encoding of the serialised
    payload, whatever it held before, and nothing was printed: a write
    that stops part way, or a text that cannot be encoded, ends the run
    with an error instead. *)
Theorem main_write_complete
    (Document : gmap string bytes -> Path -> result DocxDocument)
    (args : Namespace) (fault : option io_fault) (w w' : World)
    (destination : Path) (r : result unit) :
  output args = Some destination ->
  main Document args fault w = (r, w') ->
  exit_code r = 0 ->
  exists payload content,
    build_payload Document (docx_path args) w = (Return payload, w)
    /\ utf8_encode (json_dumps payload 2) = Some content
    /\ utf8_decode content = Some (json_dumps payload 2)
    /\ files w' !! destination = Some content
    /\ stdout w' = stdout w.
Proof.
  intros Hout Hmain Hexit.
  destruct (Document (files w) (docx_path args)) as [doc|e] eqn:Hdoc.
  - rewrite (main_Return _ _ _ _ _ Hdoc), Hout in Hmain.
    cbv zeta in Hmain. unfold bind, write_text, ret in Hmain.
    eexists. exists (default [] (utf8_encode (json_dumps
      (payload_of SYSTEM_PROMPT
         (join [NL] (filter nonblank (map text (paragraphs doc))))) 2))).
    split; [by apply build_payload_Return|].
    destruct (utf8_encode _) as [content|] eqn:Henc;
      destruct fault as [[|n]|];
      inversion Hmain; subst; try discriminate.
    split; [done|]. split; [by apply utf8_decode_encode|]. split; [|done].
    simpl. apply lookup_insert_eq.
  - rewrite (main_Raise _ _ _ _ _ Hdoc) in Hmain.
    inversion Hmain; subst. discriminate.
Qed.

Lemma main_write_complete_witness :
  exists payload content,
    build_payload (fake_Document example_canned) "deed.docx" stale_world
    = (Return payload, stale_world)
    /\ utf8_encode (json_dumps payload 2) = Some content
    /\ utf8_decode content = Some (json_dumps payload 2)
    /\ files (snd (main (fake_Document example_canned) example_args None
                     stale_world)) !! "result.json"%string = Some content
    /\ stdout (snd (main (fake_Document example_canned) example_args None
                      stale_world)) = stdout stale_world.
Proof.
  apply (main_write_complete (fake_Document example_canned) example_args None
           stale_world _ "result.json"%string (Return tt)).
  - reflexivity.
  - vm_compute. reflexivity.
  - reflexivity.
Defined.

Lemma json_dumps_pretty_witness :
  split_on NL (json_dumps (payload_of (lit "é") (lit "m²")) 2)
  = [ lit "{"; lit "  " ++ [QUOTE] ++ lit "system_prompt" ++ [QUOTE]
               ++ lit ": " ++ [QUOTE] ++ lit "é" ++ [QUOTE] ++ lit ",";
      lit "  " ++ [QUOTE] ++ lit "deed_text" ++ [QUOTE]
        ++ lit ": " ++ [QUOTE] ++ lit "m²" ++ [QUOTE];
      lit "}" ].
Proof.
  destruct (json_dumps_pretty (lit "é") (lit "m²")) as (_ & Hlines & _).
  exact Hlines.
Defined.

Lemma json_round_trip_witness :
  json_loads (json_dumps (payload_of SYSTEM_PROMPT [0x61; NL; QUOTE; 0xE9]) 2)
  = Ok (payload_of SYSTEM_PROMPT [0x61; NL; QUOTE; 0xE9]).
Proof.
  destruct (json_round_trip SYSTEM_PROMPT [0x61; NL; QUOTE; 0xE9])
    as (parsed & Hloads & -> & _).
  exact Hloads.
Defined.

(** ** More on [strip] and on the extracted text *)

Lemma lstrip_decompose (s : str) :
  exists lead,
    s = lead ++ lstrip s
    /\ Forall (fun c => isspace c = true) lead
    /\ (forall c, head (lstrip s) = Some c -> isspace c = false).
Proof.
  induction s as [|c s (lead & Hs & Hlead & Hhead)].
  - exists []. repeat split; [constructor|done].
  - cbn [lstrip]. destruct (isspace c) eqn:Hc.
    + exists (c :: lead). repeat split; [by rewrite Hs at 1|by constructor|done].
    + exists []. repeat split; [constructor|]. intros c' [= <-]. done.
Qed.

Lemma rstrip_decompose (s : str) :
  exists trail,
    s = rstrip s ++ trail
    /\ Forall (fun c => isspace c = true) trail
    /\ (forall c, last (rstrip s) = Some c -> isspace c = false).
Proof.
  unfold rstrip.
  destruct (lstrip_decompose (rev s)) as (lead & Hs & Hlead & Hhead).
  exists (rev lead). repeat split.
  - rewrite <- rev_app_distr, <- Hs. by rewrite rev_involutive.
  - rewrite Forall_forall in Hlead |- *. intros c Hc.
    apply Hlead. apply list_elem_of_In, in_rev. by apply list_elem_of_In.
  - intros c Hc. apply Hhead.
    destruct (lstrip (rev s)) as [|x l]; [done|].
    simpl in Hc. by rewrite last_snoc in Hc.
Qed.

(** X4. [strip] removes white space from both ends and nothing else: the
    string is white space, then its stripped form, then white space, and
    the stripped form neither starts nor ends with white space. *)
Theorem strip_decompose (s : str) :
  exists lead trail,
    s = lead ++ strip s ++ trail
    /\ Forall (fun c => isspace c = true) lead
    /\ Forall (fun c => isspace c = true) trail
    /\ (forall c, head (strip s) = Some c -> isspace c = false)
    /\ (forall c, last (strip s) = Some c -> isspace c = false).
Proof.
  unfold strip.
  destruct (lstrip_decompose s) as (lead & Hs & Hlead & Hhead).
  destruct (rstrip_decompose (lstrip s)) as (trail & Ht & Htrail & Hlast).
  exists lead, trail. repeat split; try done.
  - by rewrite <- Ht.
  - intros c Hc. apply Hhead. rewrite Ht.
    destruct (rstrip (lstrip s)); [done|]. done.
Qed.

Lemma join_nil_inv (ps : list str) :
  Forall nonblank ps -> join [NL] ps = [] -> ps = [].
Proof.
  intros Hall Hj. destruct ps as [|p ps]; [done|].
  apply Forall_cons in Hall as [Hp _].
  destruct p as [|c p]; [by apply Exists_nil in Hp|].
  destruct ps; discriminate.
Qed.

Lemma nonblank_app_l (a b : str) : nonblank a -> nonblank (a ++ b).
Proof. unfold nonblank. rewrite Exists_app. by left. Qed.

Lemma nonblank_join (ps : list str) :
  Forall nonblank ps -> ps <> [] -> nonblank (join [NL] ps).
Proof.
  intros Hall Hne. destruct ps as [|p ps]; [done|].
  apply Forall_cons in Hall as [Hp _].
  destruct ps; [done|]. rewrite join_cons. by apply nonblank_app_l.
Qed.

Lemma Forall_nonblank_filter (ps : list str) :
  Forall nonblank (filter nonblank ps).
Proof. apply Forall_forall. by intros p [Hp _]%list_elem_of_filter. Qed.

Lemma filter_nonblank_nil (ps : list str) :
  filter nonblank ps = [] <-> Forall blank ps.
Proof.
  split.
  - intros Hf. apply Forall_forall. intros p Hp.
    apply blank_not_nonblank. intros Hnb.
    by apply (filter_nil_not_elem_of _ _ p Hf).
  - apply filter_all_blank.
Qed.

(** X1. The extracted text is empty exactly when every paragraph is blank,
    and otherwise it has a character that is not white space: it is never
    made of white space only. *)
Theorem read_docx_text_empty_iff
    (Document : gmap string bytes -> Path -> result DocxDocument)
    (path : Path) (w : World) (doc : DocxDocument) :
  Document (files w) path = Return doc ->
  exists t,
    read_docx_text Document path w = (Return t, w)
    /\ (t = [] <-> Forall blank (map text (paragraphs doc)))
    /\ (t <> [] -> nonblank t).
Proof.
  intros Hdoc. eexists. split; [by apply read_docx_text_Return|].
  pose proof (Forall_nonblank_filter (map text (paragraphs doc))) as Hall.
  split; [split|].
  - intros Ht%join_nil_inv; [|done]. by apply filter_nonblank_nil.
  - intros Hb%filter_nonblank_nil. exact (f_equal (join [NL]) Hb).
  - intros Hne. apply nonblank_join; [done|].
    intros Hf. apply Hne. by rewrite Hf.
Qed.

Lemma read_docx_text_empty_iff_witness :
  exists t,
    read_docx_text (fake_Document example_canned) "deed.docx" example_world
    = (Return t, example_world)
    /\ (t = [] <-> Forall blank (map text (paragraphs
                      (canned_document example_paragraphs))))
    /\ (t <> [] -> nonblank t).
Proof.
  apply (read_docx_text_empty_iff (fake_Document example_canned)
           "deed.docx" example_world (canned_document example_paragraphs)).
  vm_compute. reflexivity.
Defined.

(** X2. When no paragraph holds a newline of its own and at least one
    paragraph is not blank, the lines of the extracted text are exactly
    the non-blank paragraphs, in order. *)
Theorem read_docx_text_lines
    (Document : gmap string bytes -> Path -> result DocxDocument)
    (path : Path) (w : World) (doc : DocxDocument) :
  Document (files w) path = Return doc ->
  Forall (fun p => NL ∉ p) (map text (paragraphs doc)) ->
  Exists nonblank (map text (paragraphs doc)) ->
  exists t,
    read_docx_text Document path w = (Return t, w)
    /\ split_on NL t = filter nonblank (map text (paragraphs doc)).
Proof.
  intros Hdoc Hnl Hex. eexists. split; [by apply read_docx_text_Return|].
  apply split_on_join.
  - intros Hf. apply filter_nonblank_nil in Hf.
    apply Exists_exists in Hex as (p & Hin & Hp).
    rewrite Forall_forall in Hf.
    by apply (proj1 (blank_not_nonblank p) (Hf p Hin)).
  - apply Forall_forall. intros p [_ Hp]%list_elem_of_filter.
    rewrite Forall_forall in Hnl. by apply Hnl.
Qed.

Lemma read_docx_text_lines_witness :
  exists t,
    read_docx_text (fake_Document example_canned) "deed.docx" example_world
    = (Return t, example_world)
    /\ split_on NL t = [lit "Building ALPHA"; lit "Unit PB A — 45.5 m²"].
Proof.
  apply (read_docx_text_lines (fake_Document example_canned)
           "deed.docx" example_world (canned_document example_paragraphs)).
  - vm_compute. reflexivity.
  - apply (bool_decide_unpack _). vm_compute. reflexivity.
  - apply (bool_decide_unpack _). vm_compute. reflexivity.
Defined.

Lemma join_app (a b : list str) :
  a <> [] -> b <> [] ->
  join [NL] (a ++ b) = join [NL] a ++ [NL] ++ join [NL] b.
Proof.
  intros Ha Hb. induction a as [|x a IH]; [done|].
  destruct a as [|y a].
  - destruct b; [done|]. reflexivity.
  - cbn [app] in IH |- *. rewrite !join_cons, IH by done.
    by rewrite <- !app_assoc.
Qed.

(** X3. Extraction follows the concatenation of documents: the text of a
    document whose paragraphs are those of a first document followed by
    those of a second is the two texts joined by one newline, an empty
    text being left out. *)
Theorem read_docx_text_concat
    (Document : gmap string bytes -> Path -> result DocxDocument)
    (w : World) (path1 path2 path : Path) (doc1 doc2 doc : DocxDocument) :
  Document (files w) path1 = Return doc1 ->
  Document (files w) path2 = Return doc2 ->
  Document (files w) path = Return doc ->
  paragraphs doc = paragraphs doc1 ++ paragraphs doc2 ->
  exists t1 t2,
    read_docx_text Document path1 w = (Return t1, w)
    /\ read_docx_text Document path2 w = (Return t2, w)
    /\ read_docx_text Document path w
       = (Return (join [NL] (filter (fun t => t <> []) [t1; t2])), w).
Proof.
  intros H1 H2 H Hps. do 2 eexists.
  split; [by apply read_docx_text_Return|].
  split; [by apply read_docx_text_Return|].
  rewrite (read_docx_text_Return _ _ _ _ H), Hps, map_app, filter_app.
  set (k1 := filter nonblank (map text (paragraphs doc1))).
  set (k2 := filter nonblank (map text (paragraphs doc2))).
  pose proof (Forall_nonblank_filter (map text (paragraphs doc1))) as A1.
  pose proof (Forall_nonblank_filter (map text (paragraphs doc2))) as A2.
  fold k1 in A1. fold k2 in A2. clearbody k1 k2.
  do 2 f_equal.
  destruct k1 as [|x k1].
  - cbn [app]. rewrite filter_cons_False by (by intros ?).
    destruct k2 as [|y k2]; [done|].
    rewrite filter_cons_True; [done|].
    intros Hj%join_nil_inv; done.
  - rewrite filter_cons_True by (intros Hj%join_nil_inv; done).
    destruct k2 as [|y k2].
    + rewrite app_nil_r. by rewrite filter_cons_False by (by intros ?).
    + rewrite filter_cons_True by (intros Hj%join_nil_inv; done).
      by rewrite join_app.
Qed.

Lemma read_docx_text_concat_witness :
  exists t1 t2,
    read_docx_text (fake_Document parts_canned) "part1.docx" parts_world
    = (Return t1, parts_world)
    /\ read_docx_text (fake_Document parts_canned) "part2.docx" parts_world
       = (Return t2, parts_world)
    /\ read_docx_text (fake_Document parts_canned) "whole.docx" parts_world
       = (Return (join [NL] (filter (fun t => t <> []) [t1; t2])), parts_world).
Proof.
  apply (read_docx_text_concat (fake_Document parts_canned) parts_world
           "part1.docx" "part2.docx" "whole.docx"
           (canned_document example_paragraphs)
           (canned_document nonblank_paragraphs)
           (canned_document (example_paragraphs ++ nonblank_paragraphs)));
    vm_compute; reflexivity.
Defined.

(** ** More on the UTF-8 codec *)

Lemma utf8_encode_char_Some_iff (c : N) :
  is_Some (utf8_encode_char c) <-> scalar_value c.
Proof.
  unfold utf8_encode_char, scalar_value.
  repeat match goal with
  | |- context [?a <? ?b] => destruct (N.ltb_spec a b)
  | |- context [?a <=? ?b] => destruct (N.leb_spec a b)
  end; cbn [andb];
    (split; [intros Hs|intros Hv]);
    try (by eexists); try (destruct Hs; discriminate); lia.
Qed.

Lemma length_utf8_encode_char (c : N) (bs : bytes) :
  utf8_encode_char c = Some bs -> (1 <= length bs <= 4)%nat.
Proof.
  unfold utf8_encode_char. intros H.
  repeat case_match; simplify_eq; simpl; lia.
Qed.

Lemma utf8_encode_cons (c : N) (s : str) :
  utf8_encode (c :: s)
  = b ← utf8_encode_char c; bs ← utf8_encode s; Some (b ++ bs).
Proof.
  cbn [utf8_encode].
  destruct (utf8_encode_char c), (utf8_encode s); reflexivity.
Qed.

Lemma utf8_encode_Some_Forall (s : str) :
  is_Some (utf8_encode s) <-> Forall scalar_value s.
Proof.
  induction s as [|c s IH].
  - split; [constructor|by eexists].
  - rewrite utf8_encode_cons, Forall_cons, <- IH, <- utf8_encode_char_Some_iff.
    destruct (utf8_encode_char c), (utf8_encode s); simpl;
      split; try (intros [? ?]); try (intros [[? ?] [? ?]]);
      try discriminate; eauto.
Qed.

(** X9. [str.encode("utf-8")] succeeds exactly on texts made of Unicode
    scalar values: a surrogate or a value past U+10FFFF anywhere in the
    text makes the whole encoding fail. *)
Theorem utf8_encode_succeeds_iff (s : str) :
  (exists bs, utf8_encode s = Some bs) <-> Forall scalar_value s.
Proof. apply utf8_encode_Some_Forall. Qed.

Lemma length_utf8_encode (s : str) (bs : bytes) :
  utf8_encode s = Some bs ->
  (length s <= length bs <= 4 * length s)%nat.
Proof.
  revert bs. induction s as [|c s IH]; intros bs Henc.
  - by simplify_eq/=.
  - rewrite utf8_encode_cons in Henc.
    destruct (utf8_encode_char c) as [b|] eqn:Hc; [|done].
    destruct (utf8_encode s) as [bs'|] eqn:Hs; [|done].
    simpl in Henc. simplify_eq.
    apply length_utf8_encode_char in Hc. specialize (IH _ eq_refl).
    rewrite length_app. simpl. lia.
Qed.

(** X10. The bytes written for a text decode to that text, and they are at
    least as many as its characters and at most four times as many. *)
Theorem utf8_round_trip (s : str) (bs : bytes) :
  utf8_encode s = Some bs ->
  utf8_decode bs = Some s
  /\ (length s <= length bs <= 4 * length s)%nat.
Proof.
  intros Henc. split.
  - by apply utf8_decode_encode.
  - by apply length_utf8_encode.
Qed.

Lemma utf8_round_trip_witness :
  utf8_decode (list_byte_of_string "m² — 😀")
  = Some (lit "m² — 😀").
Proof.
  apply (utf8_round_trip (lit "m² — 😀") (list_byte_of_string "m² — 😀")).
  vm_compute. reflexivity.
Defined.

(** ** More on the string encoder *)

Lemma length_escape_char (c : N) : (1 <= length (escape_char c) <= 6)%nat.
Proof.
  unfold escape_char, ESCAPE_DCT, format_u04x.
  repeat case_match; simplify_eq; simpl; lia.
Qed.

Lemma length_flat_map_escape (s : str) :
  (length s <= length (flat_map escape_char s) <= 6 * length s)%nat.
Proof.
  induction s as [|c s IH]; [simpl; lia|].
  cbn [flat_map]. rewrite length_app.
  pose proof (length_escape_char c). simpl. lia.
Qed.

(** X5. A JSON string literal made by the encoder starts and ends with a
    double quote, holds no character below U+0020, and is between
    [len(s) + 2] and [6 * len(s) + 2] characters long. *)
Theorem encode_basestring_shape (s : str) :
  head (encode_basestring s) = Some QUOTE
  /\ last (encode_basestring s) = Some QUOTE
  /\ Forall (fun c => 0x20 <= c) (encode_basestring s)
  /\ (length s + 2 <= length (encode_basestring s) <= 6 * length s + 2)%nat.
Proof.
  split; [reflexivity|]. split; [|split].
  - unfold encode_basestring.
    change (QUOTE :: flat_map escape_char s ++ [QUOTE])
      with ((QUOTE :: flat_map escape_char s) ++ [QUOTE]).
    apply last_snoc.
  - apply encode_basestring_no_control.
  - unfold encode_basestring. cbn [length]. rewrite length_app.
    pose proof (length_flat_map_escape s). simpl. lia.
Qed.

(** X6. The encoding of a string is self-delimiting: scanned with any text
    after it, it gives back the string and exactly that text. *)
Theorem scan_once_encode_basestring (s rest : str) :
  scan_once (encode_basestring s ++ rest) = Ok (s, rest).
Proof.
  unfold encode_basestring. cbn [app scan_once].
  rewrite N.eqb_refl, <- app_assoc. cbn [app].
  induction s as [|c s IH]; [reflexivity|].
  cbn [flat_map]. rewrite <- app_assoc, scanstring_escape_char, IH.
  reflexivity.
Qed.

Lemma items_text_app (items : dict) (tl extra : str) :
  items <> [] ->
  items_text items tl ++ extra = items_text items (tl ++ extra).
Proof.
  induction items as [|[k v] rest IH]; [done|]. intros _.
  cbn [items_text]. lits. unfold encode_basestring.
  destruct rest as [|kv rest].
  - by norm_app.
  - specialize (IH ltac:(done)). norm_app. by rewrite IH.
Qed.

Lemma skip_ws_all (t : str) :
  Forall (fun c => is_ws c = true) t -> skip_ws t = [].
Proof.
  induction 1 as [|c t Hc _ IH]; [done|]. cbn [skip_ws]. by rewrite Hc.
Qed.

(** Parsing skips white space after the object. *)
Lemma json_loads_dumps_trailing (d : dict) (trailing : str) :
  NoDup (dict_keys d) ->
  Forall (fun c => is_ws c = true) trailing ->
  json_loads (json_dumps d 2 ++ trailing) = Ok d.
Proof.
  intros Hnd Hws. destruct d as [|kv d].
  - change (json_dumps [] 2) with [0x7B; 0x7D]. cbn [app].
    unfold json_loads. rewrite (skip_ws_stop 0x7B) by reflexivity.
    eqb_steps. unfold JSONObject.
    change (0x7D =? QUOTE) with false. cbn iota.
    rewrite (skip_ws_stop 0x7D) by reflexivity.
    change (0x7D =? QUOTE) with false. cbn iota. eqb_steps.
    by rewrite (skip_ws_all _ Hws).
  - rewrite json_dumps_text by done. cbn [app].
    rewrite items_text_app by done. cbn [app].
    unfold json_loads. rewrite (skip_ws_stop 0x7B) by reflexivity.
    eqb_steps. unfold JSONObject.
    change (NL =? QUOTE) with false. cbn iota.
    rewrite skip_ws_indent. eqb_steps.
    rewrite JSONObject_loop_items;
      [|done|apply Nat.le_le_succ_r, length_items_text].
    cbn [app]. rewrite (skip_ws_all _ Hws).
    by rewrite dict_display_NoDup.
Qed.

(** X7. Any dict with distinct keys, of any size, serialised with
    [indent=2] and parsed again is the same dict, also when the text is
    followed by white space such as the newline that [print] adds. *)
Theorem json_loads_dumps_any_dict (d : dict) (trailing : str) :
  NoDup (dict_keys d) ->
  Forall (fun c => is_ws c = true) trailing ->
  json_loads (json_dumps d 2 ++ trailing) = Ok d
  /\ json_loads (json_dumps d 2) = Ok d.
Proof.
  intros Hnd Hws. split.
  - by apply json_loads_dumps_trailing.
  - rewrite <- (app_nil_r (json_dumps d 2)).
    apply json_loads_dumps_trailing; [done|constructor].
Qed.

Lemma json_loads_dumps_any_dict_witness :
  json_loads (json_dumps [(lit "a", lit "é"); (lit "b", []); (lit "", [NL])] 2
              ++ [NL; 0x20])
  = Ok [(lit "a", lit "é"); (lit "b", []); (lit "", [NL])].
Proof.
  apply (json_loads_dumps_any_dict
           [(lit "a", lit "é"); (lit "b", []); (lit "", [NL])] [NL; 0x20]).
  - apply (bool_decide_unpack _). vm_compute. reflexivity.
  - repeat constructor.
Defined.

(** X8. Serialisation loses nothing: two different dicts with distinct
    keys never serialise to the same text. *)
Theorem json_dumps_injective (d1 d2 : dict) :
  NoDup (dict_keys d1) -> NoDup (dict_keys d2) ->
  d1 <> d2 -> json_dumps d1 2 <> json_dumps d2 2.
Proof.
  intros H1 H2 Hne Heq. apply Hne.
  pose proof (json_loads_dumps d1 H1) as L1.
  pose proof (json_loads_dumps d2 H2) as L2.
  rewrite Heq, L2 in L1. by injection L1.
Qed.

Lemma json_dumps_injective_witness :
  payload_of SYSTEM_PROMPT (lit "a") <> payload_of SYSTEM_PROMPT (lit "a\n")
  /\ json_dumps (payload_of SYSTEM_PROMPT (lit "a")) 2
     <> json_dumps (payload_of SYSTEM_PROMPT (lit "a\n")) 2.
Proof.
  assert (payload_of SYSTEM_PROMPT (lit "a")
          <> payload_of SYSTEM_PROMPT (lit "a\n")) as Hne
    by (vm_compute; discriminate).
  split; [exact Hne|].
  apply (json_dumps_injective (payload_of SYSTEM_PROMPT (lit "a"))
           (payload_of SYSTEM_PROMPT (lit "a\n"))).
  - apply payload_of_NoDup.
  - apply payload_of_NoDup.
  - exact Hne.
Defined.

Lemma ESCAPE_true (c : N) :
  ESCAPE c = true -> c < 0x20 \/ c = BACKSLASH \/ c = QUOTE.
Proof.
  unfold ESCAPE. intros He.
  apply orb_true_iff in He as [He|He%N.eqb_eq]; [|by right; right].
  apply orb_true_iff in He as [He%N.leb_le|He%N.eqb_eq]; [left; lia|].
  by right; left.
Qed.

Lemma Forall_scalar_escape_char (c : N) :
  Forall scalar_value (escape_char c) <-> scalar_value c.
Proof.
  destruct (ESCAPE c) eqn:He.
  - apply ESCAPE_true in He. split.
    + intros _. unfold scalar_value, BACKSLASH, QUOTE in *. lia.
    + intros _. destruct He as [Hlo|[-> | ->]].
      * eapply Forall_impl; [by apply escape_char_control|].
        intros x [_ Hx]. unfold scalar_value. lia.
      * apply (bool_decide_unpack _). by vm_compute.
      * apply (bool_decide_unpack _). by vm_compute.
  - rewrite escape_char_literal by done. by rewrite Forall_singleton.
Qed.

Lemma Forall_scalar_encode_basestring (s : str) :
  Forall scalar_value (encode_basestring s) <-> Forall scalar_value s.
Proof.
  unfold encode_basestring.
  rewrite Forall_cons, Forall_app, Forall_singleton.
  assert (scalar_value QUOTE) as Hq by (left; by vm_compute).
  assert (Forall scalar_value (flat_map escape_char s)
          <-> Forall scalar_value s) as ->; [|tauto].
  induction s as [|c s IH]; [done|].
  cbn [flat_map]. by rewrite Forall_app, Forall_cons, IH,
    Forall_scalar_escape_char.
Qed.

(** The serialised payload can be encoded exactly when the extracted
    text can. *)
Lemma json_dumps_payload_scalar (deed_text : str) :
  Forall scalar_value (json_dumps (payload_of SYSTEM_PROMPT deed_text) 2)
  <-> Forall scalar_value deed_text.
Proof.
  rewrite json_dumps_payload. cbn [join].
  rewrite !Forall_app, !Forall_scalar_encode_basestring.
  assert (Forall scalar_value SYSTEM_PROMPT) as Hp
    by (apply utf8_encode_Some_Forall; rewrite SYSTEM_PROMPT_utf8; by eexists).
  assert (forall l : str, bool_decide (Forall scalar_value l) = true ->
            Forall scalar_value l) as Hd
    by (intros l Hl; by apply bool_decide_eq_true in Hl).
  repeat match goal with
  | |- context [Forall scalar_value (lit ?x)] =>
      let H := fresh in
      assert (Forall scalar_value (lit x)) as H
        by (apply Hd; vm_compute; reflexivity);
      revert H; generalize (Forall scalar_value (lit x)); intros ? ?
  end.
  assert (Forall scalar_value [NL]) by (apply Hd; by vm_compute).
  tauto.
Qed.

(** X11. The serialised payload can be encoded as UTF-8 exactly when the
    extracted text is made of Unicode scalar values: the constant prompt
    and the JSON syntax never stand in the way. *)
Theorem json_dumps_payload_encodable (deed_text : str) :
  (exists bs,
     utf8_encode (json_dumps (payload_of SYSTEM_PROMPT deed_text) 2) = Some bs)
  <-> Forall scalar_value deed_text.
Proof.
  rewrite <- json_dumps_payload_scalar. apply utf8_encode_Some_Forall.
Qed.

(** ** More on the driver *)

Section MainMore.

Variable Document : gmap string bytes -> Path -> result DocxDocument.

(** Every run of [main], by what the document library answers, whether a
    destination was given, and what happens to the write. *)
Lemma main_cases (args : Namespace) (fault : option io_fault) (w : World) :
  match Document (files w) (docx_path args) with
  | Raise e => main Document args fault w = (Raise e, w)
  | Return doc =>
      let output_text :=
        json_dumps
          (payload_of SYSTEM_PROMPT
             (join [NL] (filter nonblank (map text (paragraphs doc))))) 2 in
      match output args with
      | None =>
          main Document args fault w
          = (Return tt, mkWorld (files w) (stdout w ++ output_text ++ [NL]))
      | Some destination =>
          match fault, utf8_encode output_text with
          | Some OpenFails, _ =>
              main Document args fault w = (Raise OSError, w)
          | _, None =>
              main Document args fault w
              = (Raise UnicodeEncodeError, set_file destination [] w)
          | Some (WriteFails n), Some bs =>
              main Document args fault w
              = (Raise OSError, set_file destination (take n bs) w)
          | None, Some bs =>
              main Document args fault w
              = (Return tt, set_file destination bs w)
          end
      end
  end.
Proof.
  destruct (Document (files w) (docx_path args)) as [doc|e] eqn:Hdoc.
  - rewrite (main_Return _ _ _ _ _ Hdoc). cbv zeta.
    destruct (output args) as [destination|]; [|reflexivity].
    unfold bind, write_text, ret.
    destruct fault as [[|n]|]; [reflexivity|..];
      by destruct (utf8_encode _).
  - by apply main_Raise.
Qed.

End MainMore.






(** X15. Whatever exception the document library raises, for a missing
    file or for one that is not a package, [main] ends with that same
    exception, exit status 1, and the world as it was. *)
Theorem main_propagates_document_error
    (Document : gmap string bytes -> Path -> result DocxDocument)
    (args : Namespace) (fault : option io_fault) (w : World) (e : exn) :
  Document (files w) (docx_path args) = Raise e ->
  main Document args fault w = (Raise e, w)
  /\ exit_code (fst (main Document args fault w)) = 1.
Proof.
  intros Hdoc.
  pose proof (main_cases Document args fault w) as Hm.
  rewrite Hdoc in Hm. by rewrite Hm.
Qed.

Lemma main_propagates_document_error_witness :
  main (fake_Document example_canned)
       (mkNamespace "result.json" (Some "result.json"%string)) None stale_world
  = (Raise BadZipFile, stale_world).
Proof.
  apply (main_propagates_document_error (fake_Document example_canned)
           (mkNamespace "result.json" (Some "result.json"%string))
           None stale_world BadZipFile).
  vm_compute. reflexivity.
Defined.

(** X16. When the write to the destination meets a fault, [main] ends with
    an error and cleans nothing up: either the file could not be opened
    and the world is as it was, or the destination is left holding a
    prefix of the encoded text. *)
Theorem main_write_fault
    (Document : gmap string bytes -> Path -> result DocxDocument)
    (args : Namespace) (f : io_fault) (w : World)
    (doc : DocxDocument) (destination : Path) (bs : bytes) :
  Document (files w) (docx_path args) = Return doc ->
  output args = Some destination ->
  utf8_encode
    (json_dumps
       (payload_of SYSTEM_PROMPT
          (join [NL] (filter nonblank (map text (paragraphs doc))))) 2)
  = Some bs ->
  exists w',
    main Document args (Some f) w = (Raise OSError, w')
    /\ (w' = w
        \/ exists partial,
             w' = set_file destination partial w /\ partial `prefix_of` bs).
Proof.
  intros Hdoc Hout Henc.
  pose proof (main_cases Document args (Some f) w) as Hm.
  rewrite Hdoc, Hout in Hm. cbv zeta in Hm. rewrite Henc in Hm.
  destruct f as [|n]; eexists; (split; [exact Hm|]).
  - by left.
  - right. eexists. split; [done|]. apply prefix_take.
Qed.

Lemma main_write_fault_witness :
  exists w',
    main (fake_Document example_canned) example_args (Some (WriteFails 2))
         stale_world
    = (Raise OSError, w')
    /\ files w' !! "result.json"%string = Some [x7b; x0a].
Proof.
  destruct (main_write_fault (fake_Document example_canned) example_args
              (WriteFails 2) stale_world (canned_document example_paragraphs)
              "result.json"
              (default [] (utf8_encode (json_dumps
                 (payload_of SYSTEM_PROMPT
                    (lit "Building ALPHA" ++ [NL]
                     ++ lit "Unit PB A — 45.5 m²")) 2))))
    as (w' & Hm & _).
  - vm_compute. reflexivity.
  - reflexivity.
  - vm_compute. reflexivity.
  - exists w'. split; [exact Hm|].
    assert (w' = snd (main (fake_Document example_canned) example_args
                        (Some (WriteFails 2)) stale_world)) as ->
      by (by rewrite Hm).
    vm_compute. reflexivity.
Defined.

(** X17. When the extracted text holds a code point that UTF-8 cannot
    encode and the destination can be opened, [main] ends with
    [UnicodeEncodeError] and the destination is left empty: what it held
    before is lost. *)
Theorem main_encode_error
    (Document : gmap string bytes -> Path -> result DocxDocument)
    (args : Namespace) (fault : option io_fault) (w : World)
    (doc : DocxDocument) (destination : Path) :
  Document (files w) (docx_path args) = Return doc ->
  output args = Some destination ->
  fault <> Some OpenFails ->
  ~ Forall scalar_value
      (join [NL] (filter nonblank (map text (paragraphs doc)))) ->
  main Document args fault w
  = (Raise UnicodeEncodeError, set_file destination [] w)
  /\ files (set_file destination [] w) !! destination = Some [].
Proof.
  intros Hdoc Hout Hfault Hbad.
  pose proof (main_cases Document args fault w) as Hm.
  rewrite Hdoc, Hout in Hm. cbv zeta in Hm.
  rewrite <- json_dumps_payload_scalar, <- utf8_encode_Some_Forall in Hbad.
  destruct (utf8_encode _) as [bs|]; [by destruct Hbad; eexists|].
  split; [|apply lookup_insert_eq].
  by destruct fault as [[|n]|].
Qed.

Lemma main_encode_error_witness :
  main (fake_Document surrogate_canned) example_args None stale_world
  = (Raise UnicodeEncodeError, set_file "result.json" [] stale_world)
  /\ files (set_file "result.json" [] stale_world) !! "result.json"%string
     = Some [].
Proof.
  apply (main_encode_error (fake_Document surrogate_canned) example_args None
           stale_world (canned_document [ [0x61; 0xD800] ]) "result.json").
  - vm_compute. reflexivity.
  - reflexivity.
  - discriminate.
  - apply (bool_decide_unpack _). vm_compute. reflexivity.
Defined.

(** X18. After a successful run with a destination, reading the file back
    as UTF-8 and parsing it as JSON gives a dict whose [deed_text] is the
    text extracted from the document and whose [system_prompt] is the
    constant. *)
Theorem main_file_reads_back
    (Document : gmap string bytes -> Path -> result DocxDocument)
    (args : Namespace) (w : World)
    (doc : DocxDocument) (destination : Path) :
  Document (files w) (docx_path args) = Return doc ->
  output args = Some destination ->
  Forall scalar_value
    (join [NL] (filter nonblank (map text (paragraphs doc)))) ->
  exists w' content written parsed,
    main Document args None w = (Return tt, w')
    /\ files w' !! destination = Some content
    /\ utf8_decode content = Some written
    /\ json_loads written = Ok parsed
    /\ dict_get parsed (lit "deed_text")
       = Some (join [NL] (filter nonblank (map text (paragraphs doc))))
    /\ dict_get parsed (lit "system_prompt") = Some SYSTEM_PROMPT.
Proof.
  intros Hdoc Hout Hsc.
  pose proof (main_cases Document args None w) as Hm.
  rewrite Hdoc, Hout in Hm. cbv zeta in Hm.
  apply json_dumps_payload_scalar, utf8_encode_Some_Forall in Hsc
    as [bs Henc].
  rewrite Henc in Hm.
  exists (set_file destination bs w), bs. do 2 eexists.
  split; [exact Hm|]. split; [apply lookup_insert_eq|].
  split; [by apply utf8_decode_encode|].
  split; [apply json_loads_dumps, payload_of_NoDup|].
  split; reflexivity.
Qed.

Lemma main_file_reads_back_witness :
  exists w' content written parsed,
    main (fake_Document example_canned) example_args None stale_world
    = (Return tt, w')
    /\ files w' !! "result.json"%string = Some content
    /\ utf8_decode content = Some written
    /\ json_loads written = Ok parsed
    /\ dict_get parsed (lit "deed_text")
       = Some (join [NL] (filter nonblank
                 (map text (paragraphs (canned_document example_paragraphs)))))
    /\ dict_get parsed (lit "system_prompt") = Some SYSTEM_PROMPT.
Proof.
  apply (main_file_reads_back (fake_Document example_canned) example_args
           stale_world (canned_document example_paragraphs) "result.json").
  - vm_compute. reflexivity.
  - reflexivity.
  - apply (bool_decide_unpack _). vm_compute. reflexivity.
Defined.

(** ** The command line *)

Lemma plain_not_other_dash (arg : string) :
  plain_arg arg -> is_other_dash arg = false.
Proof. unfold plain_arg, is_other_dash. by intros ->. Qed.

Lemma classify_output_flag (opt : string) :
  opt = "-o"%string \/ opt = "--output"%string ->
  classify_arg opt = ArgOutput /\ is_other_dash opt = false.
Proof. by intros [-> | ->]. Qed.

(** X19. The positional argument and the output option may come in either
    order, and [-o] and [--output] are the same option: with a path and a
    destination that do not start with a dash, all four command lines give
    the same namespace, and the path alone gives a namespace without
    destination. *)
Theorem parse_args_orders (path out opt : string) :
  plain_arg path -> plain_arg out ->
  opt = "-o"%string \/ opt = "--output"%string ->
  parse_args [path] = Parsed (mkNamespace path None)
  /\ parse_args [path; opt; out] = Parsed (mkNamespace path (Some out))
  /\ parse_args [opt; out; path] = Parsed (mkNamespace path (Some out)).
Proof.
  intros Hpath Hout [Hopt Hdash]%classify_output_flag.
  pose proof (plain_not_other_dash _ Hpath) as Hp.
  pose proof (plain_not_other_dash _ Hout) as Ho.
  unfold plain_arg in *. unfold parse_args.
  cbn [existsb parse_known_args]. rewrite Hp, Ho, Hdash. cbn [orb].
  by rewrite Hpath, Hopt, Hout.
Qed.

Lemma parse_args_orders_witness :
  parse_args ["deed.docx"; "--output"; "result.json"]%string
  = Parsed (mkNamespace "deed.docx" (Some "result.json"%string))
  /\ parse_args ["--output"; "result.json"; "deed.docx"]%string
     = Parsed (mkNamespace "deed.docx" (Some "result.json"%string)).
Proof.
  destruct (parse_args_orders "deed.docx" "result.json" "--output")
    as (_ & H1 & H2).
  - reflexivity.
  - reflexivity.
  - by right.
  - by split.
Defined.









